(** * Strategy execution core: state machine, risk engine, policy engine,
      recovery, circuit breaker and nonce manager.

    A shallow embedding of the Python modules sketched in the backend
    roadmap ([app/core/strategy/state_machine.py], [app/core/risk/],
    [app/core/execution/recovery.py], [app/core/resilience/circuit_breaker.py],
    [app/core/execution/]), followed by the properties established for them.
    The policy engine ([app/core/policy/engine.py]), which the roadmap
    lists as delivered without showing it, is taken from the
    specification.

    Conventions.
    - A Python object mutated through [self] is a record that the embedded
      method takes and returns; an [await]ed collaborator that the source
      calls but does not define is a field of a type class, acting on an
      abstract world [W].
    - A raised exception is a value of the method's outcome type; the object
      and the world are returned next to it, since Python keeps every
      mutation made before the [raise].
    - [datetime.utcnow()] is an argument [now], in seconds.
    - Python [float] scores are exact rationals ([Q]), with a binary64
      evaluation of the score next to it; Python [int] is [Z]. *)

From Stdlib Require Import ZArith QArith Lqa Lia List Bool String Sorted.
From Stdlib Require Import Floats.
From stdpp Require Import base decidable option list strings gmap.
Import ListNotations.

#[local] Open Scope Z_scope.
#[local] Open Scope string_scope.
#[local] Open Scope list_scope.

(* ===================================================================== *)
(** * Part I: the program *)
(* ===================================================================== *)

(** ** Strategy state machine ([app/core/strategy/state_machine.py]) *)

Module StateMachine.

(** [class StrategyState(Enum)]: nine members, in declaration order. *)
Inductive StrategyState : Set :=
| IDLE
| ANALYZING
| PLANNING
| AWAITING_APPROVAL
| EXECUTING
| MONITORING
| COMPLETED
| FAILED
| PAUSED.

#[global] Instance StrategyState_eq_dec : EqDecision StrategyState.
Proof. solve_decision. Defined.

(** Every member of the enumeration. *)
Definition all_states : list StrategyState :=
  [IDLE; ANALYZING; PLANNING; AWAITING_APPROVAL; EXECUTING; MONITORING;
   COMPLETED; FAILED; PAUSED].

(** The member's [value]. *)
Definition value (s : StrategyState) : string :=
  match s with
  | IDLE => "idle"
  | ANALYZING => "analyzing"
  | PLANNING => "planning"
  | AWAITING_APPROVAL => "awaiting_approval"
  | EXECUTING => "executing"
  | MONITORING => "monitoring"
  | COMPLETED => "completed"
  | FAILED => "failed"
  | PAUSED => "paused"
  end.

(** [str(member)], as the f-string of the error message formats it. *)
Definition str (s : StrategyState) : string :=
  match s with
  | IDLE => "StrategyState.IDLE"
  | ANALYZING => "StrategyState.ANALYZING"
  | PLANNING => "StrategyState.PLANNING"
  | AWAITING_APPROVAL => "StrategyState.AWAITING_APPROVAL"
  | EXECUTING => "StrategyState.EXECUTING"
  | MONITORING => "StrategyState.MONITORING"
  | COMPLETED => "StrategyState.COMPLETED"
  | FAILED => "StrategyState.FAILED"
  | PAUSED => "StrategyState.PAUSED"
  end.

(** [TRANSITIONS: Dict[StrategyState, List[StrategyState]]], the dict
    literal entry by entry. *)
Definition TRANSITIONS : list (StrategyState * list StrategyState) :=
  [ (IDLE, [ANALYZING]);
    (ANALYZING, [PLANNING; FAILED]);
    (PLANNING, [AWAITING_APPROVAL; EXECUTING]);
    (AWAITING_APPROVAL, [EXECUTING; PAUSED]);
    (EXECUTING, [MONITORING; FAILED]);
    (MONITORING, [COMPLETED; FAILED]);
    (PAUSED, [ANALYZING; IDLE]);
    (FAILED, [IDLE]);
    (COMPLETED, [IDLE]) ].

(** [d[k]]: the value of the first entry with key [k], [None] standing
    for [KeyError]. *)
Fixpoint getitem (d : list (StrategyState * list StrategyState))
         (k : StrategyState) : option (list StrategyState) :=
  match d with
  | [] => None
  | (k', v) :: d' => if decide (k = k') then Some v else getitem d' k
  end.

(** [x in xs] on a list of states. *)
Definition contains (xs : list StrategyState) (x : StrategyState) : bool :=
  existsb (fun y => bool_decide (x = y)) xs.

(** [new_state in self.TRANSITIONS[current]], false on a missing key. *)
Definition allowed (current new_state : StrategyState) : bool :=
  match getitem TRANSITIONS current with
  | Some nexts => contains nexts new_state
  | None => false
  end.

(** The optional [context: Dict] of a transition. *)
Definition Dict : Type := list (string * string).

(** [StateTransition(from_state, to_state, context, timestamp)]. *)
Record StateTransition : Type := mkStateTransition {
  from_state : StrategyState;
  to_state : StrategyState;
  context : option Dict;
  timestamp : Z
}.

(** The fields [__init__] sets. *)
Record StrategyStateMachine : Type := mkMachine {
  strategy_id : string;
  current_state : StrategyState;
  state_history : list StateTransition
}.

(** [__init__(strategy_id, initial_state=IDLE)]. *)
Definition init (sid : string) (initial_state : option StrategyState)
  : StrategyStateMachine :=
  {| strategy_id := sid;
     current_state := default IDLE initial_state;
     state_history := [] |}.

(** What [transition_to] can raise: its own [InvalidTransitionError]
    with the formatted message, a [KeyError] of the table lookup, or
    whatever a collaborator raised. *)
Inductive Exn : Type :=
| InvalidTransitionError (msg : string)
| KeyError (k : StrategyState)
| CollaboratorError (msg : string).

Inductive Outcome : Type :=
| Returned
| Raised (e : Exn).

(** The two awaited methods that the class calls and the source leaves
    undefined.  Each acts on the world (durable storage, event bus) and
    either returns ([None]) or raises ([Some msg]). *)
Class Collaborators (W : Type) : Type := {
  persist_state : StrategyStateMachine -> W -> W * option string;
  emit_state_change_event :
    StrategyStateMachine -> StateTransition -> W -> W * option string
}.

Section TransitionTo.
Context {W : Type} `{!Collaborators W}.

(** [async def transition_to(self, new_state, context=None)].
    Statement order as in the source: membership test and raise; build
    the record; append it; assign [current_state]; persist; emit. *)
Definition transition_to (new_state : StrategyState) (ctx : option Dict)
           (now : Z) (self : StrategyStateMachine) (w : W)
  : StrategyStateMachine * W * Outcome :=
  match getitem TRANSITIONS (current_state self) with
  | None => (self, w, Raised (KeyError (current_state self)))
  | Some nexts =>
      if negb (contains nexts new_state) then
        (self, w,
         Raised (InvalidTransitionError
                   ("Cannot transition from " +:+ str (current_state self)
                    +:+ " to " +:+ str new_state)))
      else
        let transition :=
          {| from_state := current_state self;
             to_state := new_state;
             context := ctx;
             timestamp := now |} in
        let self1 :=
          {| strategy_id := strategy_id self;
             current_state := current_state self;
             state_history := state_history self ++ [transition] |} in
        let self2 :=
          {| strategy_id := strategy_id self1;
             current_state := new_state;
             state_history := state_history self1 |} in
        match persist_state self2 w with
        | (w1, Some msg) => (self2, w1, Raised (CollaboratorError msg))
        | (w1, None) =>
            match emit_state_change_event self2 transition w1 with
            | (w2, Some msg) => (self2, w2, Raised (CollaboratorError msg))
            | (w2, None) => (self2, w2, Returned)
            end
        end
  end.

(** [approve]: the awaiting_approval -> executing transition requested
    on a machine, whatever state it is in. *)
Definition approve (now : Z) (self : StrategyStateMachine) (w : W)
  : StrategyStateMachine * W * Outcome :=
  transition_to EXECUTING None now self w.

End TransitionTo.

(** States that lie after [AWAITING_APPROVAL] in the table. *)
Definition past_awaiting_approval (s : StrategyState) : bool :=
  contains [EXECUTING; MONITORING; COMPLETED; FAILED; PAUSED] s.

(** [new_state] is listed for [current] in the table. *)
Definition listed (current new_state : StrategyState) : Prop :=
  exists nexts, getitem TRANSITIONS current = Some nexts /\ In new_state nexts.

(** The machine once [transition_to] has appended the record and assigned
    the new state, before anything is persisted. *)
Definition updated (new_state : StrategyState) (ctx : option Dict) (now : Z)
           (self : StrategyStateMachine) : StrategyStateMachine :=
  {| strategy_id := strategy_id self;
     current_state := new_state;
     state_history :=
       state_history self
       ++ [ {| from_state := current_state self; to_state := new_state;
               context := ctx; timestamp := now |} ] |}.

(** A sample world: the snapshot last written to durable storage, the
    events emitted, and whether storage is failing. *)
Record SampleWorld : Type := mkSampleWorld {
  stored : option StrategyStateMachine;
  emitted : list StateTransition;
  storage_down : bool
}.

#[global] Instance sample_collaborators : Collaborators SampleWorld := {|
  persist_state m w :=
    if storage_down w then (w, Some "storage unavailable")
    else ({| stored := Some m; emitted := emitted w;
             storage_down := storage_down w |}, None);
  emit_state_change_event _ t w :=
    ({| stored := stored w; emitted := emitted w ++ [t];
        storage_down := storage_down w |}, None)
|}.

Definition sample_monitoring : StrategyStateMachine :=
  {| strategy_id := "dca-1";
     current_state := MONITORING;
     state_history :=
       [ {| from_state := EXECUTING; to_state := MONITORING;
            context := None; timestamp := 100 |} ] |}.

Definition sample_world_up : SampleWorld :=
  {| stored := Some sample_monitoring; emitted := []; storage_down := false |}.

Definition sample_world_down : SampleWorld :=
  {| stored := Some sample_monitoring; emitted := []; storage_down := true |}.

End StateMachine.

(** ** Risk engine ([app/core/risk/]) *)

Module Risk.
#[local] Open Scope Q_scope.

(** The attributes of a [CheckResult] that the engine reads. *)
Record CheckResult : Type := mkCheckResult {
  check_name : string;
  passed : bool;
  risk_contribution : Q;
  warning : option string;
  requires_human_approval : bool
}.

(** [RiskAssessment(approved, risk_score, warnings, blocked_by,
    requires_approval)]. *)
Record RiskAssessment : Type := mkRiskAssessment {
  approved : bool;
  risk_score : Q;
  warnings : list string;
  blocked_by : list CheckResult;
  requires_approval : bool
}.

(** [class RiskConfig] with its class-level defaults. *)
Record RiskConfig : Type := mkRiskConfig {
  max_position_size_usd : Q;
  max_daily_loss_usd : Q;
  max_concentration_pct : Q;
  max_slippage_pct : Q;
  max_gas_cost_pct : Q;
  blocked_contracts : list string;
  require_approval_above_usd : Q
}.

Definition default_config : RiskConfig :=
  {| max_position_size_usd := 10000;
     max_daily_loss_usd := 500;
     max_concentration_pct := 25 # 100;
     max_slippage_pct := 2 # 100;
     max_gas_cost_pct := 5 # 100;
     blocked_contracts := [];
     require_approval_above_usd := 1000 |}.

(** The [weights] dict literal of [calculate_risk_score]. *)
Definition weights : gmap string Q :=
  list_to_map
    [ ("position_limit", 2 # 10);
      ("daily_loss", 25 # 100);
      ("concentration", 15 # 100);
      ("slippage", 15 # 100);
      ("gas_cost", 1 # 10);
      ("contract_risk", 15 # 100) ].

(** The keys of [weights], in the order of the literal. *)
Definition configured_names : list string :=
  [ "position_limit"; "daily_loss"; "concentration"; "slippage";
    "gas_cost"; "contract_risk" ].

(** [weights.get(name, 0.1)]. *)
Definition weight_of (name : string) : Q :=
  default (1 # 10) (weights !! name).

(** [sum(r.risk_contribution * weights.get(r.check_name, 0.1) for r in
    results)]: Python's [sum] starts from 0 and adds from the left. *)
Definition calculate_risk_score (results : list CheckResult) : Q :=
  fold_left Qplus
            (map (fun r => risk_contribution r * weight_of (check_name r)) results)
            0.

(** The same computation on binary64 floats, as Python carries it out:
    the weights are the floats nearest to the decimal literals, and each
    product and each partial sum is rounded. *)
#[warnings="-inexact-float"]
Definition weights_float : list (string * float) :=
  [ ("position_limit", 0.2%float);
    ("daily_loss", 0.25%float);
    ("concentration", 0.15%float);
    ("slippage", 0.15%float);
    ("gas_cost", 0.1%float);
    ("contract_risk", 0.15%float) ].

Fixpoint get_float (d : list (string * float)) (k : string) (dflt : float)
  : float :=
  match d with
  | [] => dflt
  | (k', v) :: d' => if String.eqb k k' then v else get_float d' k dflt
  end.

#[warnings="-inexact-float"]
Definition calculate_risk_score_float (results : list (string * float))
  : float :=
  fold_left PrimFloat.add
            (map (fun r => PrimFloat.mul (snd r)
                                         (get_float weights_float (fst r)
                                                    0.1%float))
                 results)
            0%float.


(** Truthiness of [r.warning]: [None] and the empty string are falsy. *)
Definition truthy_warning (r : CheckResult) : option string :=
  match warning r with
  | Some EmptyString => None
  | Some s => Some s
  | None => None
  end.

Section Engine.
Context {Action ExecutionContext : Type}.

(** [check.evaluate(action, context)] of one check object. *)
Definition Check : Type := Action -> ExecutionContext -> CheckResult.

(** The six check classes that [__init__] instantiates and the source
    does not define. *)
Class Checks : Type := {
  PositionLimitCheck : Check;
  DailyLossLimitCheck : Check;
  ConcentrationRiskCheck : Check;
  SlippageToleranceCheck : Check;
  GasCostCheck : Check;
  ContractRiskCheck : Check
}.

Record RiskEngine : Type := mkRiskEngine {
  config : RiskConfig;
  checks : list Check
}.

(** [RiskEngine.__init__(config)]. *)
Definition init `{!Checks} (cfg : RiskConfig) : RiskEngine :=
  {| config := cfg;
     checks := [ PositionLimitCheck; DailyLossLimitCheck;
                 ConcentrationRiskCheck; SlippageToleranceCheck;
                 GasCostCheck; ContractRiskCheck ] |}.

(** [await asyncio.gather] over [check.evaluate(action, context) for check
    in self.checks]: every check is started, and the results come back in
    the order of [self.checks]. *)
Definition gather (cs : list Check) (action : Action)
           (context : ExecutionContext) : list CheckResult :=
  map (fun check => check action context) cs.

(** [async def evaluate(self, action, context) -> RiskAssessment]. *)
Definition evaluate (self : RiskEngine) (action : Action)
           (context : ExecutionContext) : RiskAssessment :=
  let results := gather (checks self) action context in
  {| approved := forallb passed results;
     risk_score := calculate_risk_score results;
     warnings := omap truthy_warning results;
     blocked_by := filter (fun r => passed r = false) results;
     requires_approval := existsb requires_human_approval results |}.

End Engine.

(** A result as a check of the given name reports it. *)
Definition sample_result (name : string) (ok : bool) (risk : Q) : CheckResult :=
  {| check_name := name;
     passed := ok;
     risk_contribution := risk;
     warning := if ok then None else Some (name +:+ " exceeded");
     requires_human_approval := false |}.

(** Sample checks over a trivial action and context: the position limit
    and the daily loss limit are both violated, the other four pass. *)
#[global] Instance sample_checks : @Checks unit unit := {|
  PositionLimitCheck _ _ := sample_result "position_limit" false 1;
  DailyLossLimitCheck _ _ := sample_result "daily_loss" false 1;
  ConcentrationRiskCheck _ _ := sample_result "concentration" true 0;
  SlippageToleranceCheck _ _ := sample_result "slippage" true 0;
  GasCostCheck _ _ := sample_result "gas_cost" true 0;
  ContractRiskCheck _ _ := sample_result "contract_risk" true 0
|}.


End Risk.

(** ** Policy engine ([app/core/policy/engine.py]) *)

Module Policy.

(** Modelled from the spec: the three policy layers.  The roadmap lists
    [app/core/policy/engine.py] with its [PolicyEngine] among the files
    delivered, but the module is not among the sources; the engine, its
    evaluators and its result are taken from section 4.2 of the
    specification. *)
Inductive Layer : Set :=
| SystemPolicy
| SessionPolicy
| RiskPolicy.

#[global] Instance Layer_eq_dec : EqDecision Layer.
Proof. solve_decision. Defined.

(** Modelled from the spec: the severity of a violation. *)
Inductive Severity : Set :=
| warn
| block.

(** Modelled from the spec: a violation, tagged with the evaluator that
    appended it. *)
Record PolicyViolation : Type := mkPolicyViolation {
  source : Layer;
  severity : Severity;
  message : string
}.

(** Modelled from the spec: what the Risk Policy evaluator returns, its
    violations together with the aggregate risk score and the demand for
    manual approval that it computes. *)
Record RiskVerdict : Type := mkRiskVerdict {
  risk_violations : list (Severity * string);
  score : Q;
  manual_approval : bool
}.

(** Modelled from the spec: the three evaluators, pure functions of the
    [ActionContext].  System Policy returns its hits, each of which is
    unconditionally of block severity; Session Policy and Risk Policy
    return violations of either severity. *)
Class Evaluators (ActionContext : Type) : Type := {
  system_policy : ActionContext -> list string;
  session_policy : ActionContext -> list (Severity * string);
  risk_policy : ActionContext -> RiskVerdict
}.

(** Modelled from the spec: a violation is of block severity. *)
Definition is_block (v : PolicyViolation) : bool :=
  match severity v with
  | block => true
  | warn => false
  end.

(** Modelled from the spec: some violation of the list is of block
    severity. *)
Definition blocks (vs : list PolicyViolation) : bool := existsb is_block vs.

(** Modelled from the spec: each evaluator tags what it appends. *)
Definition tag (l : Layer) (found : list (Severity * string))
  : list PolicyViolation :=
  map (fun f => {| source := l; severity := fst f; message := snd f |}) found.

(** Modelled from the spec: the verdict.  The risk score and the demand
    for manual approval come from Risk Policy and are absent when that
    evaluator was skipped; [skipped] records the evaluators that were not
    run. *)
Record PolicyResult : Type := mkPolicyResult {
  approved : bool;
  violations : list PolicyViolation;
  skipped : list Layer;
  risk_score : option Q;
  requires_approval : option bool
}.

Section Engine.
Context {ActionContext : Type} `{!Evaluators ActionContext}.

(** Modelled from the spec: the violations that the evaluator of a layer
    appends; a hit of System Policy is unconditionally of block
    severity. *)
Definition violations_of (l : Layer) (ctx : ActionContext)
  : list PolicyViolation :=
  match l with
  | SystemPolicy =>
      tag SystemPolicy (map (fun m => (block, m)) (system_policy ctx))
  | SessionPolicy => tag SessionPolicy (session_policy ctx)
  | RiskPolicy => tag RiskPolicy (risk_violations (risk_policy ctx))
  end.

(** Modelled from the spec: the fixed order of evaluation. *)
Definition order : list Layer := [SystemPolicy; SessionPolicy; RiskPolicy].

(** Modelled from the spec: the evaluators are run one after the other;
    the first one that appends a violation of block severity ends the
    evaluation, and the layers after it are recorded as skipped.  The
    result is the layers evaluated, the violations in the order they were
    appended, and the layers skipped. *)
Fixpoint run (layers : list Layer) (ctx : ActionContext)
  : list Layer * list PolicyViolation * list Layer :=
  match layers with
  | [] => ([], [], [])
  | l :: rest =>
      let found := violations_of l ctx in
      if blocks found then ([l], found, rest)
      else
        let '(evaluated, later, left_out) := run rest ctx in
        (l :: evaluated, found ++ later, left_out)
  end.

(** Modelled from the spec: [evaluate(ActionContext) -> PolicyResult],
    with the list of the evaluators that were run next to the verdict.
    The action is approved when no violation is of block severity. *)
Definition evaluate (ctx : ActionContext) : PolicyResult * list Layer :=
  let '(evaluated, found, left_out) := run order ctx in
  let risk_ran := bool_decide (RiskPolicy ∈ evaluated) in
  ({| approved := negb (blocks found);
      violations := found;
      skipped := left_out;
      risk_score := if risk_ran then Some (score (risk_policy ctx)) else None;
      requires_approval :=
        if risk_ran then Some (manual_approval (risk_policy ctx)) else None |},
   evaluated).

End Engine.

(** Sample evaluators over a trivial context: the platform is under an
    emergency stop, and the session credential has expired as well. *)
Definition sample_evaluators : Evaluators unit := {|
  system_policy _ := ["emergency stop"];
  session_policy _ := [(block, "session credential expired")];
  risk_policy _ :=
    {| risk_violations := [(warn, "slippage above the warning threshold")];
       score := 1 # 2;
       manual_approval := true |}
|}.

End Policy.

(** ** Recovery ([app/core/execution/recovery.py]) *)

Module Recovery.

(** The exceptions [execute_with_recovery] distinguishes: the two classes
    of the module, and any exception that is neither. *)
Inductive Exn : Type :=
| RecoverableError (msg : string)
| UnrecoverableError (msg : string)
| OtherError (msg : string).

(** The class attributes of [ExecutionContext]. *)
Record ExecutionContext : Type := mkExecutionContext {
  max_retries : Z;
  retry_delay_seconds : Q;
  fallback_strategies : list string
}.

Definition default_context : ExecutionContext :=
  {| max_retries := 3; retry_delay_seconds := 5%Q; fallback_strategies := [] |}.

(** The awaited methods that [execute_with_recovery] calls and the source
    does not define.  [execute] returns a result or raises; the other
    three return ([None]) or raise ([Some e]). *)
Class Methods (W Action Result : Type) : Type := {
  execute : Action -> W -> W * (Result + Exn);
  handle_retry : Z -> Exn -> W -> W * option Exn;
  escalate_to_human : Exn -> W -> W * option Exn;
  try_fallback_strategies : W -> W * option Exn
}.

(** The calls made during one run, in order. *)
Inductive Call : Type :=
| CallExecute (attempt : Z)
| CallHandleRetry (attempt : Z)
| CallEscalateToHuman (attempt : Z)
| CallTryFallbackStrategies.

#[global] Instance Call_eq_dec : EqDecision Call.
Proof. solve_decision. Defined.

Definition is_execute (c : Call) : bool :=
  match c with CallExecute _ => true | _ => false end.

Definition is_escalate (c : Call) : bool :=
  match c with CallEscalateToHuman _ => true | _ => false end.

(** How the [for] loop ends. *)
Inductive LoopEnd (Result : Type) : Type :=
| Exhausted
| LoopReturn (r : Result)
| LoopRaise (e : Exn).
Arguments Exhausted {Result}.
Arguments LoopReturn {Result} r.
Arguments LoopRaise {Result} e.

(** How the method ends: [return await self.execute(action)], the
    implicit [return None] after the fallback, or a propagated exception. *)
Inductive Outcome (Result : Type) : Type :=
| Returned (r : option Result)
| Raised (e : Exn).
Arguments Returned {Result} r.
Arguments Raised {Result} e.

(** [range(n)]. *)
Definition range (n : Z) : list Z :=
  map Z.of_nat (seq 0 (Z.to_nat n)).

Section ExecuteWithRecovery.
Context {W Action Result : Type} `{!Methods W Action Result}.

(** The body of [for attempt in ...], iterated over the attempts left.
    A recoverable error goes to [handle_retry], an unrecoverable one to
    [escalate_to_human]; when the handler returns, the [try] statement is
    over and the loop goes on to the next attempt. *)
Fixpoint attempts (todo : list Z) (action : Action) (w : W)
  : W * list Call * LoopEnd Result :=
  match todo with
  | [] => (w, [], Exhausted)
  | attempt :: rest =>
      match execute action w with
      | (w1, inl r) => (w1, [CallExecute attempt], LoopReturn r)
      | (w1, inr (RecoverableError m)) =>
          match handle_retry attempt (RecoverableError m) w1 with
          | (w2, Some e) =>
              (w2, [CallExecute attempt; CallHandleRetry attempt], LoopRaise e)
          | (w2, None) =>
              let '(w3, log, fin) := attempts rest action w2 in
              (w3, CallExecute attempt :: CallHandleRetry attempt :: log, fin)
          end
      | (w1, inr (UnrecoverableError m)) =>
          match escalate_to_human (UnrecoverableError m) w1 with
          | (w2, Some e) =>
              (w2, [CallExecute attempt; CallEscalateToHuman attempt], LoopRaise e)
          | (w2, None) =>
              let '(w3, log, fin) := attempts rest action w2 in
              (w3, CallExecute attempt :: CallEscalateToHuman attempt :: log, fin)
          end
      | (w1, inr (OtherError m)) =>
          (w1, [CallExecute attempt], LoopRaise (OtherError m))
      end
  end.

(** [async def execute_with_recovery(self, action) -> Result]. *)
Definition execute_with_recovery (self : ExecutionContext) (action : Action)
           (w : W) : W * list Call * Outcome Result :=
  match attempts (range (max_retries self)) action w with
  | (w1, log, LoopReturn r) => (w1, log, Returned (Some r))
  | (w1, log, LoopRaise e) => (w1, log, Raised e)
  | (w1, log, Exhausted) =>
      match try_fallback_strategies w1 with
      | (w2, Some e) => (w2, log ++ [CallTryFallbackStrategies], Raised e)
      | (w2, None) => (w2, log ++ [CallTryFallbackStrategies], Returned None)
      end
  end.

(** The operation raises [UnrecoverableError] whenever it is invoked. *)
Definition always_unrecoverable (action : Action) : Prop :=
  forall w, exists w1 m, execute action w = (w1, inr (UnrecoverableError m)).

(** The escalation callback returns normally whenever it is invoked. *)
Definition escalation_returns : Prop :=
  forall e w, snd (escalate_to_human e w) = None.

End ExecuteWithRecovery.

(** A sample operation: a swap that reverts for lack of funds on every
    attempt.  The world counts the swaps submitted and collects the
    escalations; every handler returns normally. *)
Record SampleWorld : Type := mkSampleWorld {
  submitted : nat;
  escalations : list string
}.

#[global] Instance sample_methods : Methods SampleWorld string string := {|
  execute _ w :=
    ({| submitted := S (submitted w); escalations := escalations w |},
     inr (UnrecoverableError "insufficient funds"));
  handle_retry _ _ w := (w, None);
  escalate_to_human e w :=
    ({| submitted := submitted w;
        escalations :=
          escalations w ++ [ match e with
                             | RecoverableError m
                             | UnrecoverableError m
                             | OtherError m => m
                             end ] |}, None);
  try_fallback_strategies w := (w, None)
|}.

Definition sample_world : SampleWorld :=
  {| submitted := 0; escalations := [] |}.

End Recovery.

(** ** Circuit breaker ([app/core/resilience/circuit_breaker.py]) *)

Module Breaker.

(** [class CircuitState(Enum)]. *)
Inductive CircuitState : Set :=
| CLOSED
| OPEN
| HALF_OPEN.

#[global] Instance CircuitState_eq_dec : EqDecision CircuitState.
Proof. solve_decision. Defined.

(** The attributes [__init__] sets. *)
Record CircuitBreaker : Type := mkBreaker {
  name : string;
  failure_threshold : Z;
  success_threshold : Z;
  timeout_seconds : Z;
  state : CircuitState;
  failure_count : Z;
  success_count : Z;
  last_failure_time : option Z
}.

(** [__init__(name, failure_threshold=5, success_threshold=3,
    timeout_seconds=60)]. *)
Definition init (nm : string) (ft st ts : option Z) : CircuitBreaker :=
  {| name := nm;
     failure_threshold := default 5 ft;
     success_threshold := default 3 st;
     timeout_seconds := default 60 ts;
     state := CLOSED;
     failure_count := 0;
     success_count := 0;
     last_failure_time := None |}.

Definition set_state (s : CircuitState) (self : CircuitBreaker) : CircuitBreaker :=
  {| name := name self;
     failure_threshold := failure_threshold self;
     success_threshold := success_threshold self;
     timeout_seconds := timeout_seconds self;
     state := s;
     failure_count := failure_count self;
     success_count := success_count self;
     last_failure_time := last_failure_time self |}.

Definition set_failure_count (n : Z) (self : CircuitBreaker) : CircuitBreaker :=
  {| name := name self;
     failure_threshold := failure_threshold self;
     success_threshold := success_threshold self;
     timeout_seconds := timeout_seconds self;
     state := state self;
     failure_count := n;
     success_count := success_count self;
     last_failure_time := last_failure_time self |}.

Definition set_success_count (n : Z) (self : CircuitBreaker) : CircuitBreaker :=
  {| name := name self;
     failure_threshold := failure_threshold self;
     success_threshold := success_threshold self;
     timeout_seconds := timeout_seconds self;
     state := state self;
     failure_count := failure_count self;
     success_count := n;
     last_failure_time := last_failure_time self |}.

Definition set_last_failure_time (t : option Z) (self : CircuitBreaker)
  : CircuitBreaker :=
  {| name := name self;
     failure_threshold := failure_threshold self;
     success_threshold := success_threshold self;
     timeout_seconds := timeout_seconds self;
     state := state self;
     failure_count := failure_count self;
     success_count := success_count self;
     last_failure_time := t |}.

(** [should_attempt_reset], which [call] consults and the source does not
    define: a reading of the breaker and of the clock. *)
Class ResetPolicy : Type := {
  should_attempt_reset : CircuitBreaker -> Z -> bool
}.

(** Modelled from the spec: [reset_counts], which [record_success] calls
    and the source does not define; the consecutive failure and success
    counters both go back to zero. *)
Definition reset_counts (self : CircuitBreaker) : CircuitBreaker :=
  set_success_count 0 (set_failure_count 0 self).

(** [def record_success(self)]. *)
Definition record_success (self : CircuitBreaker) : CircuitBreaker :=
  if decide (state self = HALF_OPEN) then
    let self1 := set_success_count (success_count self + 1) self in
    if (success_threshold self1 <=? success_count self1)%Z then
      reset_counts (set_state CLOSED self1)
    else self1
  else set_failure_count 0 self.

(** [def record_failure(self)], the clock reading [now]. *)
Definition record_failure (now : Z) (self : CircuitBreaker) : CircuitBreaker :=
  let self1 :=
    set_last_failure_time (Some now)
                          (set_failure_count (failure_count self + 1) self) in
  if (failure_threshold self1 <=? failure_count self1)%Z then set_state OPEN self1
  else self1.

(** What the wrapped function can raise: an exception of a class derived
    from [Exception], which [except Exception] catches, or one derived
    from [BaseException] only ([asyncio.CancelledError],
    [KeyboardInterrupt], [SystemExit]), which it does not catch. *)
Inductive Thrown : Type :=
| Exception (msg : string)
| BaseException (msg : string).

(** What [call] can raise: its own [CircuitOpenError] with the formatted
    message, or what the wrapped function raised: an [Exception] raised
    again by the handler, or a [BaseException] that passed the handler
    by. *)
Inductive Exn : Type :=
| CircuitOpenError (msg : string)
| FuncError (msg : string)
| FuncBaseException (msg : string).

Inductive Outcome (R : Type) : Type :=
| Returned (r : R)
| Raised (e : Exn).
Arguments Returned {R} r.
Arguments Raised {R} e.

(** The wrapped [func] with its arguments: it acts on the world and returns
    a result or raises. *)
Definition Func (W R : Type) : Type := W -> W * (R + Thrown).

Section Call.
Context `{!ResetPolicy} {W R : Type}.

(** [async def call(self, func, *args, **kwargs)].  The gate comes first:
    an open breaker either moves to half-open or raises before [func] is
    reached; then [func] runs inside the [try].  The handler is
    [except Exception]: it records the failure and raises again; any other
    raise leaves the [try] with the breaker as the gate left it. *)
Definition call (func : Func W R) (now : Z) (self : CircuitBreaker) (w : W)
  : CircuitBreaker * W * Outcome R :=
  let gate : CircuitBreaker + Exn :=
    if decide (state self = OPEN) then
      if should_attempt_reset self now then inl (set_state HALF_OPEN self)
      else inr (CircuitOpenError ("Circuit " +:+ name self +:+ " is open"))
    else inl self in
  match gate with
  | inr e => (self, w, Raised e)
  | inl self1 =>
      match func w with
      | (w1, inl result) => (record_success self1, w1, Returned result)
      | (w1, inr (Exception e)) =>
          (record_failure now self1, w1, Raised (FuncError e))
      | (w1, inr (BaseException e)) =>
          (self1, w1, Raised (FuncBaseException e))
      end
  end.

(** A sequence of calls, each with its function and its clock reading. *)
Fixpoint calls (cs : list (Func W R * Z)) (self : CircuitBreaker) (w : W)
  : CircuitBreaker * W * list (Outcome R) :=
  match cs with
  | [] => (self, w, [])
  | (func, now) :: rest =>
      let '(self1, w1, o) := call func now self w in
      let '(self2, w2, os) := calls rest self1 w1 in
      (self2, w2, o :: os)
  end.

End Call.

(** What holds of every breaker that [call] can produce from [__init__]:
    a breaker that is not closed has reached its failure threshold. *)
Definition tripped (self : CircuitBreaker) : Prop :=
  state self <> CLOSED -> (failure_threshold self <= failure_count self)%Z.

(** A wrapped function that fails whenever it is invoked: it raises an
    exception derived from [Exception]. *)
Definition always_fails {W R : Type} (func : Func W R) : Prop :=
  forall w, exists w1 e, func w = (w1, inr (Exception e)).

(** A wrapped function that returns whenever it is invoked. *)
Definition always_succeeds {W R : Type} (func : Func W R) : Prop :=
  forall w, exists w1 r, func w = (w1, inl r).

(** Modelled from the spec: the reset policy, which the source does not
    define; an open breaker rejects calls for [timeout_seconds] after the
    last failure and then lets a probe through. *)
#[global] Instance timeout_policy : ResetPolicy := {|
  should_attempt_reset self now :=
    match last_failure_time self with
    | Some t => (timeout_seconds self <=? now - t)%Z
    | None => true
    end
|}.

(** Sample wrapped functions on a world that counts invocations. *)
Definition rpc_down : Func nat string :=
  fun w => (S w, inr (Exception "connection refused")).

Definition rpc_up : Func nat string :=
  fun w => (S w, inl "0x2a").

(** [CircuitBreaker("alchemy", failure_threshold=1, success_threshold=2)]. *)
Definition sample_breaker : CircuitBreaker :=
  init "alchemy" (Some 1) (Some 2) None.

(** One failure, a probe that succeeds, a probe that fails, and one more
    probe that succeeds; each probe comes after the timeout. *)
Definition sample_calls : list (Func nat string * Z) :=
  [ (rpc_down, 0); (rpc_up, 60); (rpc_down, 61); (rpc_up, 121) ].

End Breaker.

(** ** Nonce manager ([app/core/execution/], [class NonceManager]) *)

Module Nonce.






End Nonce.

(** ** Runs of the state machine: [transition_to] called again and again
       on one machine *)

Module StateMachineRuns.
Import StateMachine.

(** One call [transition_to(new_state, context)] and the clock reading it
    is made at. *)
Record Request : Type := mkRequest {
  target : StrategyState;
  request_context : option Dict;
  at_time : Z
}.

Section Run.
Context {W : Type} `{!Collaborators W}.

(** The calls of [rs] made in order on the same machine; a caller that
    catches an exception goes on with the next call.  The outcomes come
    back in the order of the calls. *)
Fixpoint run (rs : list Request) (self : StrategyStateMachine) (w : W)
  : StrategyStateMachine * W * list Outcome :=
  match rs with
  | [] => (self, w, [])
  | r :: rest =>
      let '(self1, w1, o) :=
        transition_to (target r) (request_context r) (at_time r) self w in
      let '(self2, w2, os) := run rest self1 w1 in
      (self2, w2, o :: os)
  end.

End Run.

(** What one call does to the machine in memory, read off the table
    alone. *)
Definition replay_step (self : StrategyStateMachine) (r : Request)
  : StrategyStateMachine :=
  if allowed (current_state self) (target r)
  then updated (target r) (request_context r) (at_time r) self
  else self.

Definition replay (rs : list Request) (self : StrategyStateMachine)
  : StrategyStateMachine :=
  fold_left replay_step rs self.

(** The records of [h] form a path of the table from [start] to [finish]:
    each record leaves the state the one before it entered, along a listed
    transition. *)
Fixpoint linked (start : StrategyState) (h : list StateTransition)
         (finish : StrategyState) : Prop :=
  match h with
  | [] => start = finish
  | t :: h' =>
      from_state t = start
      /\ listed (from_state t) (to_state t)
      /\ linked (to_state t) h' finish
  end.

(** The outcome of a call that was refused by the table. *)
Definition refused (o : Outcome) : bool :=
  match o with
  | Raised (InvalidTransitionError _) => true
  | Raised (KeyError _) => true
  | _ => false
  end.

(** A route through the table from any state back to [IDLE], and one from
    [IDLE] to any state. *)
Definition to_idle (s : StrategyState) : list StrategyState :=
  match s with
  | IDLE => []
  | ANALYZING => [FAILED; IDLE]
  | PLANNING => [EXECUTING; FAILED; IDLE]
  | AWAITING_APPROVAL => [PAUSED; IDLE]
  | EXECUTING => [FAILED; IDLE]
  | MONITORING => [FAILED; IDLE]
  | COMPLETED => [IDLE]
  | FAILED => [IDLE]
  | PAUSED => [IDLE]
  end.

Definition from_idle (t : StrategyState) : list StrategyState :=
  match t with
  | IDLE => []
  | ANALYZING => [ANALYZING]
  | PLANNING => [ANALYZING; PLANNING]
  | AWAITING_APPROVAL => [ANALYZING; PLANNING; AWAITING_APPROVAL]
  | EXECUTING => [ANALYZING; PLANNING; EXECUTING]
  | MONITORING => [ANALYZING; PLANNING; EXECUTING; MONITORING]
  | COMPLETED => [ANALYZING; PLANNING; EXECUTING; MONITORING; COMPLETED]
  | FAILED => [ANALYZING; FAILED]
  | PAUSED => [ANALYZING; PLANNING; AWAITING_APPROVAL; PAUSED]
  end.

(** Every step of [targets], taken in order from [s], is listed in the
    table. *)
Fixpoint walkable (s : StrategyState) (targets : list StrategyState) : bool :=
  match targets with
  | [] => true
  | x :: rest => allowed s x && walkable x rest
  end.

(** The requests that walk from [s] to [t], all made at time [now]. *)
Definition route (s t : StrategyState) (now : Z) : list Request :=
  map (fun x => {| target := x; request_context := None; at_time := now |})
      (to_idle s ++ from_idle t).

(** Sample collaborators that always fail: storage and event bus are both
    down. *)
Definition failing_collaborators : Collaborators unit := {|
  persist_state _ w := (w, Some "storage unavailable");
  emit_state_change_event _ _ w := (w, Some "bus unavailable")
|}.

End StateMachineRuns.

(** ** Runs of [execute_with_recovery]: what the call log can look like *)

Module RecoveryRuns.
Import Recovery.

Definition is_handler (c : Call) : bool :=
  match c with
  | CallHandleRetry _ | CallEscalateToHuman _ => true
  | _ => false
  end.

Definition is_fallback (c : Call) : bool :=
  match c with CallTryFallbackStrategies => true | _ => false end.

(** How often the operation, the two handlers and the fallback were
    called in a run. *)
Definition executions (log : list Call) : nat :=
  length (List.filter is_execute log).

Definition handlings (log : list Call) : nat :=
  length (List.filter is_handler log).

Definition fallbacks (log : list Call) : nat :=
  length (List.filter is_fallback log).

(** Whether the caller of [execute_with_recovery] gets [None]: the
    method hands [None] back after the fallback, and it hands back
    whatever the operation returned, which may be [None] too; [is_none]
    tells which results of the operation are [None]. *)
Definition caller_gets_None {Result : Type} (is_none : Result -> bool)
           (o : Outcome Result) : bool :=
  match o with
  | Returned None => true
  | Returned (Some r) => is_none r
  | Raised _ => false
  end.

Section Predicates.
Context {W Action Result : Type} `{!Methods W Action Result}.

(** The operation never returns [None]. *)
Definition never_returns_None (is_none : Result -> bool) (action : Action)
  : Prop :=
  forall w w1 r, execute action w = (w1, inl r) -> is_none r = false.

(** The operation raises [RecoverableError] whenever it is invoked. *)
Definition always_recoverable (action : Action) : Prop :=
  forall w, exists w1 m, execute action w = (w1, inr (RecoverableError m)).

(** [handle_retry] returns normally whenever it is invoked. *)
Definition retry_returns : Prop :=
  forall attempt e w, snd (handle_retry attempt e w) = None.

End Predicates.

(** A sample operation on a world that counts invocations: it times out
    on the first two and returns a transaction hash on the third. *)
Definition flaky_methods : Methods nat string string := {|
  execute _ w :=
    if (w <? 2)%nat then (S w, inr (RecoverableError "timeout"))
    else (S w, inl "0xfeed");
  handle_retry _ _ w := (w, None);
  escalate_to_human _ w := (w, None);
  try_fallback_strategies w := (w, None)
|}.

(** A sample operation that has nothing to report: it returns [None] on
    the first invocation. *)
Definition silent_methods : Methods nat string (option string) := {|
  execute _ w := (S w, inl None);
  handle_retry _ _ w := (w, None);
  escalate_to_human _ w := (w, None);
  try_fallback_strategies w := (w, None)
|}.

(** A sample operation that times out on every invocation. *)
Definition timing_out_methods : Methods nat string string := {|
  execute _ w := (S w, inr (RecoverableError "timeout"));
  handle_retry _ _ w := (w, None);
  escalate_to_human _ w := (w, None);
  try_fallback_strategies w := (w, None)
|}.

End RecoveryRuns.

(** ** Runs of the circuit breaker *)

Module BreakerRuns.
Import Breaker.


(** The call went through to the wrapped function, which returned. *)
Definition is_returned {R : Type} (o : Outcome R) : Prop :=
  match o with
  | Returned _ => True
  | Raised _ => False
  end.

(** A reset policy that never lets a probe through. *)
Definition never_reset : ResetPolicy := {|
  should_attempt_reset _ _ := false
|}.

(** A sample wrapped function whose await is cancelled: it raises
    [asyncio.CancelledError], which is not derived from [Exception]. *)
Definition rpc_cancelled : Func nat string :=
  fun w => (S w, inr (BaseException "CancelledError")).

(** An open breaker whose last failure lies 60 seconds before the
    clock reading 60. *)
Definition sample_open : CircuitBreaker :=
  record_failure 0 (init "alchemy" (Some 1) (Some 2) None).

End BreakerRuns.

(** ** The risk engine with its six checks in place *)

Module RiskRuns.
Import Risk.
#[local] Open Scope Q_scope.

(** The result carries the name [n] and a risk contribution between 0
    and 1. *)
Definition reports (n : string) (r : CheckResult) : Prop :=
  check_name r = n /\ 0 <= risk_contribution r /\ risk_contribution r <= 1.

(** On this action and context each of the six checks reports under the
    key that [weights] has for it. *)
Definition checks_report {Action ExecutionContext : Type}
           `{!@Checks Action ExecutionContext}
           (action : Action) (context : ExecutionContext) : Prop :=
  reports "position_limit" (PositionLimitCheck action context)
  /\ reports "daily_loss" (DailyLossLimitCheck action context)
  /\ reports "concentration" (ConcentrationRiskCheck action context)
  /\ reports "slippage" (SlippageToleranceCheck action context)
  /\ reports "gas_cost" (GasCostCheck action context)
  /\ reports "contract_risk" (ContractRiskCheck action context).

(** The second result is the first one with a contribution that is at
    least as high. *)
Definition no_less_risky (r1 r2 : CheckResult) : Prop :=
  check_name r1 = check_name r2
  /\ risk_contribution r1 <= risk_contribution r2.

End RiskRuns.

(** ** Event bus ([app/events/]) *)

Module Events.

(** [class EventType(Enum)]. *)
Inductive EventType : Set :=
| PORTFOLIO_UPDATED
| PRICE_ALERT_TRIGGERED
| STRATEGY_TRIGGERED
| STRATEGY_STATE_CHANGED
| TRANSACTION_SUBMITTED
| TRANSACTION_CONFIRMED
| TRANSACTION_FAILED
| RISK_LIMIT_BREACHED
| SESSION_EXPIRED.

#[global] Instance EventType_eq_dec : EqDecision EventType.
Proof. solve_decision. Defined.

(** The member's [value]. *)
Definition value (t : EventType) : string :=
  match t with
  | PORTFOLIO_UPDATED => "portfolio.updated"
  | PRICE_ALERT_TRIGGERED => "price.alert.triggered"
  | STRATEGY_TRIGGERED => "strategy.triggered"
  | STRATEGY_STATE_CHANGED => "strategy.state.changed"
  | TRANSACTION_SUBMITTED => "transaction.submitted"
  | TRANSACTION_CONFIRMED => "transaction.confirmed"
  | TRANSACTION_FAILED => "transaction.failed"
  | RISK_LIMIT_BREACHED => "risk.limit.breached"
  | SESSION_EXPIRED => "session.expired"
  end.

(** The stream name that [publish] formats and [start_consumer] reads. *)
Definition stream_key (t : EventType) : string := "events:" +:+ value t.

(** An [Event], as far as [publish] reads it: its type, [event.json()]
    and [event.timestamp.isoformat()]. *)
Record Event : Type := mkEvent {
  type : EventType;
  json : string;
  timestamp_iso : string
}.

(** One entry of a Redis stream: the fields that [xadd] is given. *)
Record Entry : Type := mkEntry {
  payload : string;
  timestamp : string
}.

Section Bus.
Context {Handler : Type}.

(** [self.handlers: Dict[EventType, List[Callable]]]: a dict keeps its
    keys in the order they were first set. *)
Definition Handlers : Type := list (EventType * list Handler).

(** [EventBus]: the Redis streams by name, and the handlers. *)
Record EventBus : Type := mkEventBus {
  redis : gmap string (list Entry);
  handlers : Handlers
}.

(** [EventBus.__init__(redis_client)]. *)
Definition init (redis_client : gmap string (list Entry)) : EventBus :=
  {| redis := redis_client; handlers := [] |}.

(** [d.get(k)]. *)
Fixpoint get (d : Handlers) (k : EventType) : option (list Handler) :=
  match d with
  | [] => None
  | (k', v) :: d' => if decide (k = k') then Some v else get d' k
  end.

(** [d[k].append(h)] on a dict that has the key. *)
Fixpoint append_at (d : Handlers) (k : EventType) (h : Handler) : Handlers :=
  match d with
  | [] => []
  | (k', v) :: d' =>
      if decide (k = k') then (k', v ++ [h]) :: d'
      else (k', v) :: append_at d' k h
  end.

(** [def subscribe(self, event_type, handler)]. *)
Definition subscribe (event_type : EventType) (handler : Handler)
           (self : EventBus) : EventBus :=
  let handlers1 :=
    match get (handlers self) event_type with
    | None => handlers self ++ [(event_type, [])]
    | Some _ => handlers self
    end in
  {| redis := redis self;
     handlers := append_at handlers1 event_type handler |}.

(** [self.redis.xadd(name, fields)]: the entry goes to the end of the
    stream, which is created when it is not there. *)
Definition xadd (name : string) (e : Entry) (r : gmap string (list Entry))
  : gmap string (list Entry) :=
  <[name := default [] (r !! name) ++ [e]]> r.

(** [async def publish(self, event)]. *)
Definition publish (event : Event) (self : EventBus) : EventBus :=
  {| redis :=
       xadd (stream_key (type event))
            {| payload := json event; timestamp := timestamp_iso event |}
            (redis self);
     handlers := handlers self |}.

(** Subscriptions made one after the other. *)
Definition subscribe_all (subs : list (EventType * Handler))
           (self : EventBus) : EventBus :=
  fold_left (fun bus s => subscribe (fst s) (snd s) bus) subs self.

(** The handlers of [subs] that were subscribed for [t], in order. *)
Definition subscribed_for (t : EventType) (subs : list (EventType * Handler))
  : list Handler :=
  omap (fun s => if decide (fst s = t) then Some (snd s) else None) subs.

End Bus.

End Events.

(** ** Notifications ([app/notifications/]) *)

Module Notifications.

(** [class Notification]. *)
Record Notification : Type := mkNotification {
  event_type : string;
  title : string;
  message : string;
  data : list (string * string);
  priority : string;
  timestamp : Z
}.

(** What [send] can raise: the [KeyError] of [self.channels[name]], or
    what a collaborator raised. *)
Inductive Exn : Type :=
| KeyError (k : string)
| CollaboratorError (msg : string).

Inductive Outcome : Type :=
| Returned
| Raised (e : Exn).

(** The collaborators that the source does not define: the [send] of the
    four notifier objects that [__init__] creates, and the lookup of the
    user's preferences, which yields [preferences.enabled_channels]. *)
Class Collaborators (W : Type) : Type := {
  DiscordNotifier_send : Notification -> W -> W * option string;
  TelegramNotifier_send : Notification -> W -> W * option string;
  EmailNotifier_send : Notification -> W -> W * option string;
  WebhookNotifier_send : Notification -> W -> W * option string;
  get_user_preferences : string -> W -> W * (list string + string)
}.

Section Service.
Context {W : Type} `{!Collaborators W}.

Definition Notifier : Type := Notification -> W -> W * option string.

(** [self.channels], the dict literal of [__init__]. *)
Definition channels : list (string * Notifier) :=
  [ ("discord", DiscordNotifier_send);
    ("telegram", TelegramNotifier_send);
    ("email", EmailNotifier_send);
    ("webhook", WebhookNotifier_send) ].

(** [self.channels[name]], [None] standing for [KeyError]. *)
Fixpoint getitem (d : list (string * Notifier)) (k : string)
  : option Notifier :=
  match d with
  | [] => None
  | (k', v) :: d' => if String.eqb k k' then Some v else getitem d' k
  end.

(** The [for channel_name in preferences.enabled_channels] loop; the
    result lists the channels whose [send] was awaited. *)
Fixpoint deliver (names : list string) (notification : Notification) (w : W)
  : W * list string * Outcome :=
  match names with
  | [] => (w, [], Returned)
  | channel_name :: rest =>
      match getitem channels channel_name with
      | None => (w, [], Raised (KeyError channel_name))
      | Some channel =>
          match channel notification w with
          | (w1, Some msg) =>
              (w1, [channel_name], Raised (CollaboratorError msg))
          | (w1, None) =>
              let '(w2, sent, o) := deliver rest notification w1 in
              (w2, channel_name :: sent, o)
          end
      end
  end.

(** [async def send(self, user_id, notification)]. *)
Definition send (user_id : string) (notification : Notification) (w : W)
  : W * list string * Outcome :=
  match get_user_preferences user_id w with
  | (w1, inr msg) => (w1, [], Raised (CollaboratorError msg))
  | (w1, inl enabled_channels) => deliver enabled_channels notification w1
  end.

(** No notifier raises. *)
Definition notifiers_return : Prop :=
  forall (name : string) (channel : Notifier) (n : Notification) (w : W),
    getitem channels name = Some channel -> snd (channel n w) = None.

End Service.

(** The channel names that [__init__] knows. *)
Definition channel_names : list string :=
  ["discord"; "telegram"; "email"; "webhook"].

(** Sample collaborators: every notifier records its name in the world,
    and the user has enabled e-mail, SMS and Discord. *)
#[global] Instance sample_collaborators : Collaborators (list string) := {|
  DiscordNotifier_send _ w := (w ++ ["discord"], None);
  TelegramNotifier_send _ w := (w ++ ["telegram"], None);
  EmailNotifier_send _ w := (w ++ ["email"], None);
  WebhookNotifier_send _ w := (w ++ ["webhook"], None);
  get_user_preferences _ w := (w, inl ["email"; "sms"; "discord"])
|}.

Definition sample_notification : Notification :=
  {| event_type := "transaction.confirmed";
     title := "Confirmed";
     message := "Transaction confirmed";
     data := [("tx_hash", "0x2a")];
     priority := "medium";
     timestamp := 1700000000 |}.

End Notifications.

(** ** Relevance scoring ([app/services/relevance.py]) *)

Module Relevance.
#[local] Open Scope Q_scope.

(** The six scoring helpers that [score_news_for_portfolio] calls and the
    source does not define, each reading the news item and the portfolio
    profile. *)
Class Factors (News Portfolio : Type) : Type := {
  _score_direct_holdings : News -> Portfolio -> Q;
  _score_project_relevance : News -> Portfolio -> Q;
  _score_sector_overlap : News -> Portfolio -> Q;
  _score_competitor_relevance : News -> Portfolio -> Q;
  _score_correlation : News -> Portfolio -> Q;
  _weight_by_position_size : News -> Portfolio -> Q
}.

(** [d[k]] on a dict with string keys, [None] standing for [KeyError]. *)
Fixpoint getitem (d : list (string * Q)) (k : string) : option Q :=
  match d with
  | [] => None
  | (k', v) :: d' => if String.eqb k k' then Some v else getitem d' k
  end.

(** The [weights] dict literal. *)
Definition weights : list (string * Q) :=
  [ ("direct_holding", 4 # 10);
    ("same_project", 2 # 10);
    ("sector_relevance", 15 # 100);
    ("competitor_impact", 1 # 10);
    ("correlation", 1 # 10);
    ("position_weight", 5 # 100) ].

(** [sum(scores[k] * weights[k] for k in weights)]: the keys of [weights]
    in the order of the literal, the sum taken from 0 and from the left. *)
Fixpoint weighted_sum (scores : list (string * Q)) (keys : list string)
         (acc : Q) : option Q :=
  match keys with
  | [] => Some acc
  | k :: rest =>
      match getitem scores k, getitem weights k with
      | Some sc, Some wt => weighted_sum scores rest (acc + sc * wt)
      | _, _ => None
      end
  end.

(** [RelevanceScore(score, breakdown, explanation)], the explanation
    left out. *)
Record RelevanceScore : Type := mkRelevanceScore {
  score : Q;
  breakdown : list (string * Q)
}.

Section Scorer.
Context {News Portfolio : Type} `{!Factors News Portfolio}.

(** The [scores] dict literal. *)
Definition scores (news : News) (portfolio : Portfolio) : list (string * Q) :=
  [ ("direct_holding", _score_direct_holdings news portfolio);
    ("same_project", _score_project_relevance news portfolio);
    ("sector_relevance", _score_sector_overlap news portfolio);
    ("competitor_impact", _score_competitor_relevance news portfolio);
    ("correlation", _score_correlation news portfolio);
    ("position_weight", _weight_by_position_size news portfolio) ].

(** [def score_news_for_portfolio(self, news, portfolio)]; [None] is a
    [KeyError] out of one of the two dict lookups. *)
Definition score_news_for_portfolio (news : News) (portfolio : Portfolio)
  : option RelevanceScore :=
  let sc := scores news portfolio in
  match weighted_sum sc (map fst weights) 0 with
  | Some final_score => Some {| score := final_score; breakdown := sc |}
  | None => None
  end.

(** Every factor of this news item and portfolio lies between 0 and 1. *)
Definition factors_normalized (news : News) (portfolio : Portfolio) : Prop :=
  Forall (fun kv => 0 <= snd kv /\ snd kv <= 1) (scores news portfolio).

End Scorer.

(** Sample factors: every factor is at its top. *)
Definition top_factors : Factors unit unit := {|
  _score_direct_holdings _ _ := 1;
  _score_project_relevance _ _ := 1;
  _score_sector_overlap _ _ := 1;
  _score_competitor_relevance _ _ := 1;
  _score_correlation _ _ := 1;
  _weight_by_position_size _ _ := 1
|}.

End Relevance.

(** ** Position sizing for copy trading ([app/core/copy_trading/sizing.py]) *)

Module Sizing.
#[local] Open Scope Q_scope.

(** A [TradeEvent], as far as sizing reads it. *)
Record TradeEvent : Type := mkTradeEvent {
  address : string;
  value_usd : Q
}.

(** A [Portfolio], as far as sizing reads it. *)
Record Portfolio : Type := mkPortfolio {
  total_value_usd : Q
}.

(** [class CopyConfig(BaseModel)], the fields that decide the size and
    its limits. *)
Record CopyConfig : Type := mkCopyConfig {
  leader_address : string;
  leader_chain : string;
  sizing_mode : string;
  size_value : Q;
  min_trade_usd : Q;
  max_trade_usd : option Q
}.

(** [PercentageSizing.calculate_size]. *)
Definition PercentageSizing_calculate_size (leader_trade : TradeEvent)
           (follower_portfolio : Portfolio) (config : CopyConfig) : Q :=
  let portfolio_value := total_value_usd follower_portfolio in
  portfolio_value * (size_value config / 100).

(** [self.get_leader_portfolio_value], which the source does not
    define. *)
Class LeaderData : Type := {
  get_leader_portfolio_value : string -> Q
}.

(** [ProportionalSizing.calculate_size]; [None] is the division error
    that Python raises on a leader portfolio worth zero. *)
Definition ProportionalSizing_calculate_size `{!LeaderData}
           (leader_trade : TradeEvent) (follower_portfolio : Portfolio)
           (config : CopyConfig) : option Q :=
  let leader_portfolio_value :=
    get_leader_portfolio_value (address leader_trade) in
  if Qeq_bool leader_portfolio_value 0 then None
  else
    let leader_trade_pct := value_usd leader_trade / leader_portfolio_value in
    Some (total_value_usd follower_portfolio * leader_trade_pct
          * size_value config).

(** Sample data: the leader put a tenth of a 5000 USD portfolio into a
    trade, the follower holds 2000 USD and copies at multiplier 1. *)
Definition sample_leader_data : LeaderData := {|
  get_leader_portfolio_value _ := 5000
|}.

Definition sample_trade : TradeEvent :=
  {| address := "0x1eade4"; value_usd := 500 |}.

Definition sample_follower : Portfolio := {| total_value_usd := 2000 |}.

Definition sample_config (mode : string) (v : Q) : CopyConfig :=
  {| leader_address := "0x1eade4";
     leader_chain := "base";
     sizing_mode := mode;
     size_value := v;
     min_trade_usd := 10;
     max_trade_usd := None |}.

End Sizing.

(** ** Address activity webhooks ([AlchemyWebhookHandler]) *)

Module Webhooks.

(** One element of [payload["event"]["activity"]]; each key may be
    missing, in which case [.get] gives [None]. *)
Record Activity : Type := mkActivity {
  hash : option string;
  fromAddress : option string;
  toAddress : option string
}.

(** The value under ["event"], with its optional ["activity"] list. *)
Record EventBody : Type := mkEventBody {
  activity : option (list Activity)
}.

(** The webhook payload, with its optional ["event"] key. *)
Record Payload : Type := mkPayload {
  event : option EventBody
}.

(** The two methods that the handler calls and the source does not
    define. *)
Class Methods (W : Type) : Type := {
  is_watched : option string -> bool;
  process_activity : Activity -> W -> W * option string
}.

Inductive Outcome : Type :=
| Returned
| Raised (msg : string).

Section Handler.
Context {W : Type} `{!Methods W}.

(** [payload.get("event", {}).get("activity", [])]. *)
Definition activities (payload : Payload) : list Activity :=
  default [] (activity (default {| activity := None |} (event payload))).

(** The loop body iterated; the result lists the activities passed to
    [process_activity]. *)
Fixpoint handle_each (todo : list Activity) (w : W)
  : W * list Activity * Outcome :=
  match todo with
  | [] => (w, [], Returned)
  | a :: rest =>
      if is_watched (fromAddress a) || is_watched (toAddress a) then
        match process_activity a w with
        | (w1, Some msg) => (w1, [a], Raised msg)
        | (w1, None) =>
            let '(w2, done, o) := handle_each rest w1 in
            (w2, a :: done, o)
        end
      else handle_each rest w
  end.

(** [async def handle_address_activity(self, payload)]. *)
Definition handle_address_activity (payload : Payload) (w : W)
  : W * list Activity * Outcome :=
  handle_each (activities payload) w.

(** [process_activity] never raises. *)
Definition processing_returns : Prop :=
  forall a w, snd (process_activity a w) = None.

End Handler.

(** Sample methods: one watched wallet; the world counts the activities
    processed. *)
Definition sample_methods : Methods nat := {|
  is_watched a :=
    match a with
    | Some addr => String.eqb addr "0xwatched"
    | None => false
    end;
  process_activity _ w := (S w, None)
|}.

End Webhooks.

(** ** Scheduled strategy execution ([app/scheduler/]) *)

Module Scheduler.

(** A [Strategy], as far as the scheduler reads it. *)
Record Strategy : Type := mkStrategy {
  id : string;
  conditions : option (list string)
}.

(** A job of the scheduler: the trigger built from the cron expression
    and the arguments of [execute_strategy]. *)
Record Job : Type := mkJob {
  trigger : string;
  args : list string
}.

(** [CronTrigger.from_crontab], of the scheduling library: the trigger, or
    [None] for the [ValueError] of a malformed expression. *)
Class Cron : Type := {
  from_crontab : string -> option string
}.

Inductive Outcome : Type :=
| Returned
| Raised (msg : string).

(** The job id [f"strategy-{strategy.id}"]. *)
Definition job_id (strategy_id : string) : string :=
  "strategy-" +:+ strategy_id.

(** [async def schedule_strategy(self, strategy, cron_expression,
    conditions=None)]: [add_job] with [replace_existing=True] puts the job
    under its id, in place of a job that has the id already. *)
Definition schedule_strategy `{!Cron} (strategy : Strategy)
           (cron_expression : string) (conds : option (list string))
           (jobs : gmap string Job) : gmap string Job * Outcome :=
  match from_crontab cron_expression with
  | None => (jobs, Raised "ValueError")
  | Some t =>
      (<[job_id (id strategy) := {| trigger := t; args := [id strategy] |}]>
         jobs,
       Returned)
  end.

(** The awaited methods that [execute_strategy] calls and the source does
    not define. *)
Class Methods (W : Type) : Type := {
  load_strategy : string -> W -> W * (Strategy + string);
  evaluate_conditions : list string -> W -> W * (bool + string);
  strategy_executor_execute : Strategy -> W -> W * option string
}.

(** The calls made by one [execute_strategy], in order. *)
Inductive Call : Type :=
| CallLoadStrategy
| CallEvaluateConditions
| CallExecute.

#[global] Instance Call_eq_dec : EqDecision Call.
Proof. solve_decision. Defined.

(** Truthiness of [strategy.conditions]: [None] and the empty list are
    falsy. *)
Definition has_conditions (s : Strategy) : option (list string) :=
  match conditions s with
  | Some (c :: cs) => Some (c :: cs)
  | _ => None
  end.

Section Execute.
Context {W : Type} `{!Methods W}.

(** [async def execute_strategy(self, strategy_id)]. *)
Definition execute_strategy (strategy_id : string) (w : W)
  : W * list Call * Outcome :=
  match load_strategy strategy_id w with
  | (w1, inr msg) => (w1, [CallLoadStrategy], Raised msg)
  | (w1, inl strategy) =>
      let run_it (w2 : W) (log : list Call) :=
        match strategy_executor_execute strategy w2 with
        | (w3, Some msg) => (w3, log ++ [CallExecute], Raised msg)
        | (w3, None) => (w3, log ++ [CallExecute], Returned)
        end in
      match has_conditions strategy with
      | Some cs =>
          match evaluate_conditions cs w1 with
          | (w2, inr msg) =>
              (w2, [CallLoadStrategy; CallEvaluateConditions], Raised msg)
          | (w2, inl false) =>
              (w2, [CallLoadStrategy; CallEvaluateConditions], Returned)
          | (w2, inl true) =>
              run_it w2 [CallLoadStrategy; CallEvaluateConditions]
          end
      | None => run_it w1 [CallLoadStrategy]
      end
  end.

End Execute.

(** A sample cron parser: every expression but the empty one is a
    trigger. *)
Definition sample_cron : Cron := {|
  from_crontab e :=
    match e with
    | EmptyString => None
    | _ => Some e
    end
|}.

(** Sample methods: the stored strategy has one condition, which does not
    hold; the world counts the executions. *)
Definition sample_methods : Methods nat := {|
  load_strategy sid w :=
    (w, inl {| id := sid; conditions := Some ["price < 2000"] |});
  evaluate_conditions _ w := (w, inl false);
  strategy_executor_execute _ w := (S w, None)
|}.

End Scheduler.

(** ** Personalized feed ([convex/personalizedFeed.ts]) *)

Module Feed.
#[local] Open Scope Q_scope.

(** A document of [newsItems], as far as the query reads it. *)
Record NewsItem : Type := mkNewsItem {
  news_id : string;
  publishedAt : Q
}.

(** [{...news, relevance}]. *)
Record Scored : Type := mkScored {
  item : NewsItem;
  relevance : Q
}.

(** [computeRelevance], which the source calls and does not define. *)
Class Scoring (Portfolio : Type) : Type := {
  computeRelevance : NewsItem -> Portfolio -> Q
}.

(** The arguments [limit] and [minRelevance], both optional; [limit] is
    taken to be an integral number. *)
Record Args : Type := mkArgs {
  limit : option Z;
  minRelevance : option Q
}.

(** The comparator passed to [sort]:
    [relevanceScore(a, b) * 0.6 + recencyScore(a, b) * 0.4]. *)
Definition comparator (a b : Scored) : Q :=
  (relevance b - relevance a) * (6 # 10)
  + (publishedAt (item b) - publishedAt (item a)) * (4 # 10).

(** [Array.prototype.sort] with a comparator: [b] goes before [a] when
    the comparator is positive on [(a, b)], and elements that compare
    equal keep their order.  Insertion from the right gives that order. *)
Fixpoint insert (x : Scored) (l : list Scored) : list Scored :=
  match l with
  | [] => [x]
  | y :: l' =>
      if Qlt_le_dec 0 (comparator x y) then y :: insert x l' else x :: l
  end.

Definition sort (l : list Scored) : list Scored := foldr insert [] l.

(** [Array.prototype.slice(0, end)]: a negative [end] counts from the end
    of the array. *)
Definition slice_to {A : Type} (finish : Z) (l : list A) : list A :=
  let len := Z.of_nat (length l) in
  let final :=
    if (finish <? 0)%Z then Z.max (len + finish) 0 else Z.min finish len in
  take (Z.to_nat final) l.

Section Query.
Context {Portfolio : Type} `{!Scoring Portfolio}.

(** The handler of [getPersonalizedFeed].  [portfolio] is what [first()]
    gave for the wallet, and [newsItems] is the [by_published] index in
    descending order. *)
Definition getPersonalizedFeed (portfolio : option Portfolio)
           (newsItems : list NewsItem) (args : Args) : list Scored :=
  match portfolio with
  | None => []
  | Some pf =>
      let recentNews := take 100 newsItems in
      let scored :=
        map (fun news => {| item := news;
                            relevance := computeRelevance news pf |})
            recentNews in
      let kept :=
        List.filter
          (fun n => if Qlt_le_dec (relevance n)
                                  (default (3 # 10) (minRelevance args))
                    then false else true)
          scored in
      slice_to (default 20%Z (limit args)) (sort kept)
  end.

End Query.

(** What the comparator ranks by: [0.6 * relevance + 0.4 * publishedAt]. *)
Definition rank (x : Scored) : Q :=
  relevance x * (6 # 10) + publishedAt (item x) * (4 # 10).

(** [a] may stand before [b] in a sorted feed. *)
Definition ranks_before (a b : Scored) : Prop := rank b <= rank a.

(** A sample scoring: the relevance is stored in the id of the item. *)
Definition sample_scoring : Scoring unit := {|
  computeRelevance news _ :=
    if String.eqb (news_id news) "eth-upgrade" then 9 # 10 else 4 # 10
|}.

Definition sample_news : list NewsItem :=
  [ {| news_id := "meme-of-the-day"; publishedAt := 1700000000002 |};
    {| news_id := "eth-upgrade"; publishedAt := 1700000000000 |} ].

End Feed.

(** ** Strategy documents ([convex/strategies.ts]) *)

Module ConvexStrategies.

(** The four literals of the [status] field. *)
Inductive Status : Set :=
| draft
| active
| paused
| archived.

#[global] Instance Status_eq_dec : EqDecision Status.
Proof. solve_decision. Defined.

(** A document of the [strategies] table. *)
Record StrategyDoc : Type := mkStrategyDoc {
  userId : string;
  name : string;
  description : option string;
  config : string;
  status : Status;
  createdAt : Z;
  updatedAt : Z
}.

(** The table: documents in the order of insertion; the id that [insert]
    returns is the position of the document. *)
Definition Table : Type := list StrategyDoc.

(** The arguments of [create]. *)
Record CreateArgs : Type := mkCreateArgs {
  arg_userId : string;
  arg_name : string;
  arg_description : option string;
  arg_config : string
}.

(** The handler of [create], [now] being [Date.now()]. *)
Definition create (args : CreateArgs) (now : Z) (db : Table)
  : nat * Table :=
  (length db,
   db ++ [ {| userId := arg_userId args;
              name := arg_name args;
              description := arg_description args;
              config := arg_config args;
              status := draft;
              createdAt := now;
              updatedAt := now |} ]).

(** The handler of [updateStatus]: [ctx.db.patch] replaces the two fields
    of the document, and throws ([None]) when there is no document of
    that id. *)
Definition updateStatus (strategyId : nat) (new_status : Status) (now : Z)
           (db : Table) : option Table :=
  match db !! strategyId with
  | None => None
  | Some d =>
      Some (<[strategyId :=
                {| userId := userId d;
                   name := name d;
                   description := description d;
                   config := config d;
                   status := new_status;
                   createdAt := createdAt d;
                   updatedAt := now |}]> db)
  end.

(** The handler of [listByUser]: the documents of the user, which the
    index gives in the order of creation. *)
Definition listByUser (uid : string) (db : Table) : list StrategyDoc :=
  List.filter (fun d => String.eqb (userId d) uid) db.

(** A mutation with the clock reading it runs at. *)
Inductive Mutation : Type :=
| Create (args : CreateArgs) (now : Z)
| UpdateStatus (strategyId : nat) (new_status : Status) (now : Z).

Definition time_of (m : Mutation) : Z :=
  match m with
  | Create _ now => now
  | UpdateStatus _ _ now => now
  end.

(** One mutation; a mutation that throws leaves the table as it was. *)
Definition apply_mutation (db : Table) (m : Mutation) : Table :=
  match m with
  | Create args now => snd (create args now db)
  | UpdateStatus sid st now => default db (updateStatus sid st now db)
  end.

Definition apply_all (ms : list Mutation) (db : Table) : Table :=
  fold_left apply_mutation ms db.

(** The clock readings never go back, from [t] on. *)
Fixpoint clock_monotone (t : Z) (ms : list Mutation) : Prop :=
  match ms with
  | [] => True
  | m :: rest => (t <= time_of m)%Z /\ clock_monotone (time_of m) rest
  end.

(** The fields of a document that no mutation changes. *)
Definition same_identity (d d' : StrategyDoc) : Prop :=
  userId d' = userId d
  /\ name d' = name d
  /\ description d' = description d
  /\ config d' = config d
  /\ createdAt d' = createdAt d.

(** Every document was created no later than it was last updated, and
    last updated no later than [t]. *)
Definition timestamps_ordered (t : Z) (db : Table) : Prop :=
  Forall (fun d => (createdAt d <= updatedAt d)%Z /\ (updatedAt d <= t)%Z) db.

(** Every document of [db] is still in [db'] under its id, with the same
    identity and an update time that did not go back. *)
Definition kept_in (db db' : Table) : Prop :=
  forall (i : nat) (d : StrategyDoc),
    db !! i = Some d ->
    exists d', db' !! i = Some d'
               /\ same_identity d d'
               /\ (updatedAt d <= updatedAt d')%Z.

End ConvexStrategies.

(* ===================================================================== *)
(** * Part II: properties *)
(* ===================================================================== *)

Section StateMachineFacts.
Import StateMachine.
Context {W : Type} `{!Collaborators W}.

Lemma getitem_TRANSITIONS_total (s : StrategyState) :
  is_Some (getitem TRANSITIONS s).
Proof. destruct s; vm_compute; eauto. Qed.

Lemma contains_In (xs : list StrategyState) (x : StrategyState) :
  contains xs x = true <-> In x xs.
Proof.
  unfold contains. rewrite existsb_exists. split.
  - intros (y & Hy & Heq). apply bool_decide_eq_true in Heq. now subst.
  - intros Hx. exists x. split; [assumption | now apply bool_decide_eq_true].
Qed.

Lemma allowed_listed (current new_state : StrategyState) :
  allowed current new_state = true <-> listed current new_state.
Proof.
  unfold allowed, listed. split.
  - destruct (getitem TRANSITIONS current) as [nexts|] eqn:E; [|discriminate].
    intros Hc. exists nexts. split; [reflexivity | now apply contains_In].
  - intros (nexts & -> & Hin). now apply contains_In.
Qed.

Lemma not_listed_allowed_false (current new_state : StrategyState) :
  ~ listed current new_state -> allowed current new_state = false.
Proof.
  intros Hn. destruct (allowed current new_state) eqn:E; [|reflexivity].
  exfalso. apply Hn. now apply allowed_listed.
Qed.

Lemma transition_to_rejected (self : StrategyStateMachine) (w : W)
      (new_state : StrategyState) (ctx : option Dict) (now : Z) :
  allowed (current_state self) new_state = false ->
  transition_to new_state ctx now self w =
    (self, w,
     Raised (InvalidTransitionError
               ("Cannot transition from " +:+ str (current_state self)
                +:+ " to " +:+ str new_state))).
Proof.
  unfold allowed, transition_to.
  destruct (getitem_TRANSITIONS_total (current_state self)) as [nexts ->].
  intros ->. reflexivity.
Qed.

Lemma transition_to_accepted (self : StrategyStateMachine) (w : W)
      (new_state : StrategyState) (ctx : option Dict) (now : Z) :
  allowed (current_state self) new_state = true ->
  transition_to new_state ctx now self w =
    let self' := updated new_state ctx now self in
    match persist_state self' w with
    | (w1, Some msg) => (self', w1, Raised (CollaboratorError msg))
    | (w1, None) =>
        match emit_state_change_event
                self'
                {| from_state := current_state self; to_state := new_state;
                   context := ctx; timestamp := now |} w1 with
        | (w2, Some msg) => (self', w2, Raised (CollaboratorError msg))
        | (w2, None) => (self', w2, Returned)
        end
    end.
Proof.
  unfold allowed, transition_to, updated.
  destruct (getitem TRANSITIONS (current_state self)) as [nexts|];
    [|discriminate].
  intros ->. reflexivity.
Qed.

Lemma approve_not_allowed_past_approval (s : StrategyState) :
  past_awaiting_approval s = true -> allowed s EXECUTING = false.
Proof. destruct s; vm_compute; congruence. Qed.

End StateMachineFacts.

(** C2.  A transition to a state that the table does not list for the
    current state raises [InvalidTransitionError] and changes nothing: the
    machine that comes back is the machine that went in (same
    [current_state], same [state_history]), and neither collaborator has
    touched the world.  In particular [approve], the awaiting_approval ->
    executing transition, requested on a machine that is already past
    [AWAITING_APPROVAL], is such an error and records no transition. *)
Theorem transition_to_unlisted_raises_and_keeps_state :
  forall (W : Type) (C : StateMachine.Collaborators W)
         (self : StateMachine.StrategyStateMachine) (w : W)
         (new_state : StateMachine.StrategyState)
         (ctx : option StateMachine.Dict) (now : Z),
    (~ StateMachine.listed (StateMachine.current_state self) new_state ->
     exists msg self' w',
       StateMachine.transition_to new_state ctx now self w =
         (self', w', StateMachine.Raised (StateMachine.InvalidTransitionError msg))
       /\ self' = self
       /\ StateMachine.current_state self' = StateMachine.current_state self
       /\ StateMachine.state_history self' = StateMachine.state_history self
       /\ w' = w)
    /\
    (StateMachine.past_awaiting_approval (StateMachine.current_state self) = true ->
     exists msg,
       StateMachine.approve now self w =
         (self, w, StateMachine.Raised (StateMachine.InvalidTransitionError msg))).
Proof.
  intros W C self w new_state ctx now. split.
  - intros Hn. apply not_listed_allowed_false in Hn.
    eexists _, self, w. split.
    + now apply transition_to_rejected.
    + repeat split.
  - intros Hp. apply approve_not_allowed_past_approval in Hp.
    eexists. unfold StateMachine.approve. now apply transition_to_rejected.
Qed.

Lemma transition_to_unlisted_raises_and_keeps_state_witness :
  StateMachine.past_awaiting_approval
    (StateMachine.current_state StateMachine.sample_monitoring) = true
  /\ exists msg,
       StateMachine.approve 200 StateMachine.sample_monitoring
                            StateMachine.sample_world_up
       = (StateMachine.sample_monitoring, StateMachine.sample_world_up,
          StateMachine.Raised (StateMachine.InvalidTransitionError msg)).
Proof.
  split; [reflexivity|].
  apply (proj2 (transition_to_unlisted_raises_and_keeps_state
                  StateMachine.SampleWorld StateMachine.sample_collaborators
                  StateMachine.sample_monitoring StateMachine.sample_world_up
                  StateMachine.EXECUTING None 200)).
  reflexivity.
Defined.

(** The table does not make [FAILED] and [COMPLETED] terminal, since each
    lists [IDLE], and [IDLE] lists neither [PAUSED] nor [FAILED]. *)
Lemma terminal_and_escape_edges_refuted :
  ~ ((forall t, StateMachine.allowed StateMachine.FAILED t = false)
     /\ (forall t, StateMachine.allowed StateMachine.COMPLETED t = false)
     /\ (forall s,
            In s [StateMachine.IDLE; StateMachine.ANALYZING;
                  StateMachine.PLANNING; StateMachine.AWAITING_APPROVAL;
                  StateMachine.EXECUTING; StateMachine.MONITORING] ->
            StateMachine.allowed s StateMachine.PAUSED = true
            /\ StateMachine.allowed s StateMachine.FAILED = true)).
Proof.
  intros (Hfailed & _ & _).
  specialize (Hfailed StateMachine.IDLE). vm_compute in Hfailed. discriminate.
Qed.

(** The entries of the table, read off the literal: every one of the
    nine states lists at least one successor; [FAILED] and [COMPLETED]
    each list exactly [IDLE]; [PAUSED] is listed for [AWAITING_APPROVAL]
    only; [FAILED] is listed for [ANALYZING], [EXECUTING] and
    [MONITORING] only. *)
Lemma transition_table_shape :
  (forall s, In s StateMachine.all_states)
  /\ (forall s, exists t, StateMachine.allowed s t = true)
  /\ (forall t, StateMachine.allowed StateMachine.FAILED t = true
                <-> t = StateMachine.IDLE)
  /\ (forall t, StateMachine.allowed StateMachine.COMPLETED t = true
                <-> t = StateMachine.IDLE)
  /\ (forall s, StateMachine.allowed s StateMachine.PAUSED = true
                <-> s = StateMachine.AWAITING_APPROVAL)
  /\ (forall s, StateMachine.allowed s StateMachine.FAILED = true
                <-> s = StateMachine.ANALYZING \/ s = StateMachine.EXECUTING
                    \/ s = StateMachine.MONITORING).
Proof.
  repeat split.
  - destruct s; vm_compute; tauto.
  - destruct s;
      [ exists StateMachine.ANALYZING | exists StateMachine.PLANNING
      | exists StateMachine.EXECUTING | exists StateMachine.EXECUTING
      | exists StateMachine.MONITORING | exists StateMachine.COMPLETED
      | exists StateMachine.IDLE | exists StateMachine.IDLE
      | exists StateMachine.ANALYZING ]; reflexivity.
  - destruct t; vm_compute; congruence.
  - intros ->. reflexivity.
  - destruct t; vm_compute; congruence.
  - intros ->. reflexivity.
  - destruct s; vm_compute; congruence.
  - intros ->. reflexivity.
  - destruct s; vm_compute; intros Heq; try discriminate Heq; tauto.
  - intros [-> | [-> | ->]]; reflexivity.
Qed.

(** C3, on the code.  The table of the sketch does not do what the claim
    and the roadmap's own account of this module say ("Any active state
    can transition to: PAUSED, CANCELLED, FAILED; terminal states:
    COMPLETED, FAILED, CANCELLED").  No member of [StrategyState] is the
    cancelled state.  A machine in [COMPLETED] or [FAILED] is not at an
    end: [transition_to(IDLE)] is accepted, moves the machine to [IDLE]
    and appends the record, whatever the collaborators do.  And eight of
    the twelve escapes that the claim promises are refused with
    [InvalidTransitionError], among them [PLANNING] and
    [AWAITING_APPROVAL] to [FAILED] and [EXECUTING] to [PAUSED]. *)
Theorem transition_to_leaves_terminal_states_and_refuses_escapes :
  forall (W : Type) (C : StateMachine.Collaborators W) (sid : string)
         (history : list StateMachine.StateTransition) (now : Z) (w : W),
    let machine_in s :=
      {| StateMachine.strategy_id := sid;
         StateMachine.current_state := s;
         StateMachine.state_history := history |} in
    (forall s, StateMachine.value s <> "cancelled")
    /\ (forall s,
           In s [StateMachine.COMPLETED; StateMachine.FAILED] ->
           let self' :=
             fst (fst (StateMachine.transition_to StateMachine.IDLE None now
                                                  (machine_in s) w)) in
           StateMachine.current_state self' = StateMachine.IDLE
           /\ StateMachine.state_history self'
              = history
                ++ [ {| StateMachine.from_state := s;
                        StateMachine.to_state := StateMachine.IDLE;
                        StateMachine.context := None;
                        StateMachine.timestamp := now |} ])
    /\ (forall s t,
           In (s, t)
              [ (StateMachine.IDLE, StateMachine.PAUSED);
                (StateMachine.IDLE, StateMachine.FAILED);
                (StateMachine.ANALYZING, StateMachine.PAUSED);
                (StateMachine.PLANNING, StateMachine.PAUSED);
                (StateMachine.PLANNING, StateMachine.FAILED);
                (StateMachine.AWAITING_APPROVAL, StateMachine.FAILED);
                (StateMachine.EXECUTING, StateMachine.PAUSED);
                (StateMachine.MONITORING, StateMachine.PAUSED) ] ->
           exists msg,
             StateMachine.transition_to t None now (machine_in s) w
             = (machine_in s, w,
                StateMachine.Raised (StateMachine.InvalidTransitionError msg))).
Proof.
  intros W C sid history now w machine_in. split; [|split].
  - intros s. destruct s; discriminate.
  - intros s Hs self'. subst self'.
    assert (Hallowed :
              StateMachine.allowed
                (StateMachine.current_state (machine_in s)) StateMachine.IDLE
              = true).
    { cbn in Hs. destruct Hs as [<- | [<- | []]]; reflexivity. }
    rewrite (transition_to_accepted (machine_in s) w StateMachine.IDLE None
                                    now Hallowed).
    cbv zeta.
    destruct (StateMachine.persist_state _ w) as [w1 [msg|]];
      [split; reflexivity|].
    destruct (StateMachine.emit_state_change_event _ _ w1) as [w2 [msg|]];
      split; reflexivity.
  - intros s t Hst. eexists.
    apply (transition_to_rejected (machine_in s) w t None now).
    cbn in Hst.
    repeat (destruct Hst as [Hst | Hst];
            [injection Hst as <- <-; reflexivity|]).
    destruct Hst.
Qed.

(** With storage down, the machine in memory is at [COMPLETED] while the
    snapshot in storage is still at [MONITORING]. *)
Example in_memory_state_ahead_of_storage :
  let '(self', w', _) :=
    StateMachine.transition_to StateMachine.COMPLETED None 200
                               StateMachine.sample_monitoring
                               StateMachine.sample_world_down in
  StateMachine.current_state self' = StateMachine.COMPLETED
  /\ StateMachine.current_state <$> StateMachine.stored w'
     = Some StateMachine.MONITORING.
Proof. cbn. split; reflexivity. Qed.

(** C9.  On a listed transition the machine appends the record and assigns
    the new state before it persists.  So when [persist_state] raises, the
    exception leaves [transition_to] with the machine already moved: its
    [current_state] is the new state and its history has the new record at
    the end; nothing is rolled back and no event is emitted. *)
Theorem transition_to_persist_failure_keeps_new_state :
  forall (W : Type) (C : StateMachine.Collaborators W)
         (self : StateMachine.StrategyStateMachine) (w w1 : W)
         (new_state : StateMachine.StrategyState)
         (ctx : option StateMachine.Dict) (now : Z) (msg : string),
    StateMachine.listed (StateMachine.current_state self) new_state ->
    StateMachine.persist_state
      (StateMachine.updated new_state ctx now self) w = (w1, Some msg) ->
    exists self',
      StateMachine.transition_to new_state ctx now self w =
        (self', w1, StateMachine.Raised (StateMachine.CollaboratorError msg))
      /\ StateMachine.current_state self' = new_state
      /\ StateMachine.state_history self' =
           StateMachine.state_history self
           ++ [ {| StateMachine.from_state := StateMachine.current_state self;
                   StateMachine.to_state := new_state;
                   StateMachine.context := ctx;
                   StateMachine.timestamp := now |} ].
Proof.
  intros W C self w w1 new_state ctx now msg Hl Hp.
  apply allowed_listed in Hl.
  exists (StateMachine.updated new_state ctx now self).
  rewrite (transition_to_accepted _ _ _ _ _ Hl). cbv zeta.
  rewrite Hp. repeat split.
Qed.

Lemma transition_to_persist_failure_keeps_new_state_witness :
  exists self',
    StateMachine.transition_to StateMachine.COMPLETED None 200
                               StateMachine.sample_monitoring
                               StateMachine.sample_world_down
    = (self', StateMachine.sample_world_down,
       StateMachine.Raised (StateMachine.CollaboratorError "storage unavailable"))
    /\ StateMachine.current_state self' = StateMachine.COMPLETED
    /\ StateMachine.state_history self' =
         StateMachine.state_history StateMachine.sample_monitoring
         ++ [ {| StateMachine.from_state := StateMachine.MONITORING;
                 StateMachine.to_state := StateMachine.COMPLETED;
                 StateMachine.context := None;
                 StateMachine.timestamp := 200 |} ].
Proof.
  apply (transition_to_persist_failure_keeps_new_state
           StateMachine.SampleWorld StateMachine.sample_collaborators
           StateMachine.sample_monitoring StateMachine.sample_world_down
           StateMachine.sample_world_down StateMachine.COMPLETED None 200
           "storage unavailable").
  - exists [StateMachine.COMPLETED; StateMachine.FAILED].
    split; [reflexivity | left; reflexivity].
  - reflexivity.
Defined.

Section RiskFacts.
Import Risk.
#[local] Open Scope Q_scope.

Lemma weight_of_position_limit : weight_of "position_limit" = 2 # 10.
Proof. vm_compute. reflexivity. Qed.

Lemma weight_of_daily_loss : weight_of "daily_loss" = 25 # 100.
Proof. vm_compute. reflexivity. Qed.

Lemma weight_of_concentration : weight_of "concentration" = 15 # 100.
Proof. vm_compute. reflexivity. Qed.

Lemma weight_of_slippage : weight_of "slippage" = 15 # 100.
Proof. vm_compute. reflexivity. Qed.

Lemma weight_of_gas_cost : weight_of "gas_cost" = 1 # 10.
Proof. vm_compute. reflexivity. Qed.

Lemma weight_of_contract_risk : weight_of "contract_risk" = 15 # 100.
Proof. vm_compute. reflexivity. Qed.


(** In binary64 the score of one result per configured check, each at
    contribution 1.0 and in the order of the checks, is 1.0 exactly. *)
Example calculate_risk_score_float_top :
  calculate_risk_score_float
    (map (fun n => (n, 1%float)) configured_names) = 1%float.
Proof. vm_compute. reflexivity. Qed.

(** In binary64 the sample with one result under an unknown name scores
    above 1.0. *)
Example calculate_risk_score_float_overweight :
  PrimFloat.ltb 1%float
    (calculate_risk_score_float
       (map (fun n => (n, 1%float)) (configured_names ++ ["liquidity"])))
  = true.
Proof. vm_compute. reflexivity. Qed.

Lemma blocked_by_spec {Action ExecutionContext : Type}
      (self : @RiskEngine Action ExecutionContext) (action : Action)
      (context : ExecutionContext) (r : CheckResult) :
  In r (blocked_by (evaluate self action context))
  <-> passed r = false
      /\ exists check, In check (checks self) /\ r = check action context.
Proof.
  unfold evaluate, gather. cbn [blocked_by].
  rewrite <- list_elem_of_In, list_elem_of_filter, list_elem_of_In, in_map_iff.
  split.
  - intros (Hp & check & <- & Hin). split; [exact Hp | now exists check].
  - intros (Hp & check & Hin & ->). split; [exact Hp | now exists check].
Qed.

Lemma approved_iff_nothing_blocked {Action ExecutionContext : Type}
      (self : @RiskEngine Action ExecutionContext) (action : Action)
      (context : ExecutionContext) :
  approved (evaluate self action context) = true
  <-> blocked_by (evaluate self action context) = [].
Proof.
  unfold evaluate. cbn [approved blocked_by].
  induction (gather (checks self) action context) as [|r rs IH].
  - split; reflexivity.
  - rewrite filter_cons. cbn [forallb].
    destruct (passed r) eqn:Hr; case_decide; try congruence.
    + exact IH.
    + split; discriminate.
Qed.

End RiskFacts.

(** Within the risk layer nothing is short-circuited: the engine built by
    [__init__] from checks of which the first two fail does not stop at
    the first failing check, and [blocked_by] does not hold that check's
    result alone. *)
Lemma evaluate_short_circuit_refuted :
  ~ (forall (self : @Risk.RiskEngine unit unit) (check : Risk.Check)
            (rest : list Risk.Check),
        Risk.checks self = check :: rest ->
        Risk.passed (check tt tt) = false ->
        Risk.blocked_by (Risk.evaluate self tt tt) = [check tt tt]).
Proof.
  intros Hclaim.
  specialize (Hclaim (Risk.init Risk.default_config) _ _ eq_refl eq_refl).
  vm_compute in Hclaim. discriminate Hclaim.
Qed.

(** [RiskEngine.evaluate] gathers one result per configured check;
    [blocked_by] holds the result of each check that did not pass,
    whatever the checks before it returned, and nothing else; and the
    action is approved exactly when [blocked_by] is empty. *)
Lemma evaluate_runs_every_check :
  forall (Action ExecutionContext : Type)
         (self : @Risk.RiskEngine Action ExecutionContext)
         (action : Action) (context : ExecutionContext),
    length (Risk.gather (Risk.checks self) action context)
      = length (Risk.checks self)
    /\ (forall check,
           In check (Risk.checks self) ->
           Risk.passed (check action context) = false ->
           In (check action context)
              (Risk.blocked_by (Risk.evaluate self action context)))
    /\ (forall r,
           In r (Risk.blocked_by (Risk.evaluate self action context)) ->
           Risk.passed r = false
           /\ exists check,
                In check (Risk.checks self) /\ r = check action context)
    /\ (Risk.approved (Risk.evaluate self action context) = true
        <-> Risk.blocked_by (Risk.evaluate self action context) = []).
Proof.
  intros Action ExecutionContext self action context.
  split; [|split; [|split]].
  - unfold Risk.gather. apply length_map.
  - intros check Hin Hp. apply blocked_by_spec. split; [exact Hp|].
    now exists check.
  - intros r Hr. now apply blocked_by_spec.
  - apply approved_iff_nothing_blocked.
Qed.

Section PolicyFacts.
Import Policy.
Context {ActionContext : Type} `{!Evaluators ActionContext}.

Lemma system_hit_blocks (ctx : ActionContext) :
  blocks (violations_of SystemPolicy ctx)
  = negb (bool_decide (system_policy ctx = [])).
Proof.
  unfold violations_of, tag. rewrite map_map.
  destruct (system_policy ctx) as [|m ms]; reflexivity.
Qed.

Lemma tagged_source (l : Layer) (found : list (Severity * string))
      (v : PolicyViolation) :
  In v (tag l found) -> source v = l.
Proof.
  unfold tag. rewrite in_map_iff. intros (f & <- & _). reflexivity.
Qed.

Lemma violations_of_source (l : Layer) (ctx : ActionContext)
      (v : PolicyViolation) :
  In v (violations_of l ctx) -> source v = l.
Proof. destruct l; apply tagged_source. Qed.

Lemma blocks_app (vs ws : list PolicyViolation) :
  blocks (vs ++ ws) = blocks vs || blocks ws.
Proof. unfold blocks. apply existsb_app. Qed.

(** What [run] returns on the fixed order, by the evaluator that blocks
    first. *)
Lemma run_order (ctx : ActionContext) :
  run order ctx =
    if blocks (violations_of SystemPolicy ctx) then
      ([SystemPolicy], violations_of SystemPolicy ctx,
       [SessionPolicy; RiskPolicy])
    else if blocks (violations_of SessionPolicy ctx) then
      ([SystemPolicy; SessionPolicy],
       violations_of SystemPolicy ctx ++ violations_of SessionPolicy ctx,
       [RiskPolicy])
    else
      ([SystemPolicy; SessionPolicy; RiskPolicy],
       violations_of SystemPolicy ctx
       ++ violations_of SessionPolicy ctx ++ violations_of RiskPolicy ctx,
       []).
Proof.
  unfold order. cbn [run].
  destruct (blocks (violations_of SystemPolicy ctx)); [reflexivity|].
  destruct (blocks (violations_of SessionPolicy ctx)); [reflexivity|].
  destruct (blocks (violations_of RiskPolicy ctx)); [|now rewrite app_nil_r].
  reflexivity.
Qed.

End PolicyFacts.

(** C1.  The policy engine evaluates System Policy, Session Policy and
    Risk Policy in that order and stops at the first evaluator that
    appends a violation of block severity.  The evaluators that ran
    followed by those recorded as skipped are the three layers in the
    fixed order; the violations of the result are those of the evaluators
    that ran, in that order, and none of a skipped one; no evaluator
    before the last one that ran produced a block, and when some evaluator
    is skipped the last one that ran did; the action is approved exactly
    when no violation is of block severity.  In particular, when System
    Policy has a hit, only System Policy runs: Session and Risk are
    recorded as skipped, every violation of the result is a System
    violation also when Session Policy would report one, and the verdict
    does not depend on the Session and Risk evaluators at all. *)
Theorem policy_evaluation_short_circuits_in_fixed_order :
  forall (ActionContext : Type) (E : Policy.Evaluators ActionContext)
         (ctx : ActionContext),
    let result := fst (Policy.evaluate ctx) in
    let evaluated := snd (Policy.evaluate ctx) in
    evaluated ++ Policy.skipped result
    = [Policy.SystemPolicy; Policy.SessionPolicy; Policy.RiskPolicy]
    /\ Policy.violations result
       = flat_map (fun l => Policy.violations_of l ctx) evaluated
    /\ (forall v,
           In v (Policy.violations result) ->
           ~ In (Policy.source v) (Policy.skipped result))
    /\ (forall l,
           In l (removelast evaluated) ->
           Policy.blocks (Policy.violations_of l ctx) = false)
    /\ (Policy.skipped result <> [] ->
        Policy.blocks
          (Policy.violations_of (List.last evaluated Policy.SystemPolicy) ctx)
        = true)
    /\ Policy.approved result
       = negb (Policy.blocks (Policy.violations result))
    /\ (Policy.system_policy ctx <> [] ->
        evaluated = [Policy.SystemPolicy]
        /\ Policy.skipped result = [Policy.SessionPolicy; Policy.RiskPolicy]
        /\ Policy.violations result
           = map (fun m => {| Policy.source := Policy.SystemPolicy;
                              Policy.severity := Policy.block;
                              Policy.message := m |})
                 (Policy.system_policy ctx)
        /\ (forall v, In v (Policy.violations result) ->
                      Policy.source v = Policy.SystemPolicy)
        /\ Policy.approved result = false
        /\ forall E' : Policy.Evaluators ActionContext,
             @Policy.system_policy _ E' ctx = @Policy.system_policy _ E ctx ->
             @Policy.evaluate _ E' ctx = @Policy.evaluate _ E ctx).
Proof.
  intros ActionContext E ctx result evaluated. subst result evaluated.
  unfold Policy.evaluate. rewrite run_order.
  destruct (Policy.blocks (Policy.violations_of Policy.SystemPolicy ctx))
    eqn:Hsys.
  - cbn [fst snd Policy.skipped Policy.violations Policy.approved].
    split; [reflexivity|].
    split; [cbn; now rewrite app_nil_r|].
    split.
    { intros v Hv Hin. apply violations_of_source in Hv. rewrite Hv in Hin.
      cbn in Hin. intuition discriminate. }
    split; [intros l []|].
    split; [intros _; exact Hsys|].
    split; [reflexivity|].
    intros _. split; [reflexivity|]. split; [reflexivity|].
    split; [unfold Policy.violations_of, Policy.tag; now rewrite map_map|].
    split; [intros v Hv; now apply violations_of_source in Hv|].
    split; [now rewrite Hsys|].
    intros E' Hsame. unfold Policy.evaluate.
    rewrite (@run_order _ E' ctx).
    assert (Hv : @Policy.violations_of _ E' Policy.SystemPolicy ctx
                 = @Policy.violations_of _ E Policy.SystemPolicy ctx).
    { unfold Policy.violations_of. congruence. }
    rewrite Hv, Hsys. cbv beta iota zeta. rewrite Hsys. reflexivity.
  - assert (Hnone : Policy.system_policy ctx = []).
    { rewrite system_hit_blocks in Hsys.
      destruct (decide (Policy.system_policy ctx = [])) as [Hn|Hn];
        [exact Hn|].
      rewrite bool_decide_eq_false_2 in Hsys by exact Hn. discriminate. }
    destruct (Policy.blocks (Policy.violations_of Policy.SessionPolicy ctx))
      eqn:Hses.
    + cbn [fst snd Policy.skipped Policy.violations Policy.approved].
      split; [reflexivity|].
      split; [cbn; now rewrite app_nil_r|].
      split.
      { intros v Hv Hin. apply in_app_or in Hv.
        destruct Hv as [Hv|Hv]; apply violations_of_source in Hv;
          rewrite Hv in Hin; cbn in Hin; intuition discriminate. }
      split.
      { intros l Hl. cbn in Hl. destruct Hl as [<- | []]. exact Hsys. }
      split; [intros _; exact Hses|].
      split; [reflexivity|].
      intros Hhit. contradiction.
    + cbn [fst snd Policy.skipped Policy.violations Policy.approved].
      split; [reflexivity|].
      split; [cbn; now rewrite app_nil_r|].
      split; [intros v _ []|].
      split.
      { intros l Hl. cbn in Hl. destruct Hl as [<- | [<- | []]]; assumption. }
      split; [intros Hne; now contradict Hne|].
      split; [reflexivity|].
      intros Hhit. contradiction.
Qed.

(** The test of the specification: a Session-Policy violation and a
    System-Policy block at once; only the System violation appears. *)
Lemma policy_evaluation_short_circuits_in_fixed_order_witness :
  Policy.violations (fst (@Policy.evaluate unit Policy.sample_evaluators tt))
  = [ {| Policy.source := Policy.SystemPolicy;
         Policy.severity := Policy.block;
         Policy.message := "emergency stop" |} ]
  /\ Policy.skipped (fst (@Policy.evaluate unit Policy.sample_evaluators tt))
     = [Policy.SessionPolicy; Policy.RiskPolicy].
Proof.
  destruct (proj2 (proj2 (proj2 (proj2 (proj2 (proj2
              (policy_evaluation_short_circuits_in_fixed_order
                 unit Policy.sample_evaluators tt))))))
              ltac:(discriminate))
    as (_ & Hskipped & Hviolations & _).
  split; [exact Hviolations | exact Hskipped].
Defined.

(** In exact arithmetic the six configured weights add up to 1, and on
    one result per configured check, in the order of the checks, each with
    a risk contribution between 0 and 1, the score is between 0 and 1. *)
Lemma calculate_risk_score_bounded :
  (fold_left Qplus (map Risk.weight_of Risk.configured_names) 0 == 1)%Q
  /\ forall results : list Risk.CheckResult,
       map Risk.check_name results = Risk.configured_names ->
       (forall r, In r results ->
                  (0 <= Risk.risk_contribution r
                   /\ Risk.risk_contribution r <= 1)%Q) ->
       (0 <= Risk.calculate_risk_score results
        /\ Risk.calculate_risk_score results <= 1)%Q.
Proof.
  split; [vm_compute; reflexivity|].
  intros results Hnames Hbound.
  destruct results as [|r1 [|r2 [|r3 [|r4 [|r5 [|r6 [|r7 rest]]]]]]];
    try discriminate Hnames.
  injection Hnames as H1 H2 H3 H4 H5 H6.
  assert (B1 := Hbound r1 ltac:(cbn; tauto)).
  assert (B2 := Hbound r2 ltac:(cbn; tauto)).
  assert (B3 := Hbound r3 ltac:(cbn; tauto)).
  assert (B4 := Hbound r4 ltac:(cbn; tauto)).
  assert (B5 := Hbound r5 ltac:(cbn; tauto)).
  assert (B6 := Hbound r6 ltac:(cbn; tauto)).
  unfold Risk.calculate_risk_score. cbn [map fold_left].
  rewrite H1, H2, H3, H4, H5, H6.
  rewrite weight_of_position_limit, weight_of_daily_loss,
    weight_of_concentration, weight_of_slippage, weight_of_gas_cost,
    weight_of_contract_risk.
  split; lra.
Qed.

Lemma calculate_risk_score_bounded_witness :
  (0 <= Risk.calculate_risk_score
          (map (fun n => Risk.sample_result n true 1) Risk.configured_names)
   /\ Risk.calculate_risk_score
        (map (fun n => Risk.sample_result n true 1) Risk.configured_names)
      <= 1)%Q.
Proof.
  apply (proj2 calculate_risk_score_bounded).
  - reflexivity.
  - intros r Hr. cbn in Hr.
    repeat (destruct Hr as [<- | Hr]; [cbn; split; discriminate|]).
    destruct Hr.
Defined.




Section RecoveryFacts.
Import Recovery.
Context {W Action Result : Type} `{!Methods W Action Result}.

Lemma attempts_unrecoverable_log (todo : list Z) (action : Action) (w : W) :
  always_unrecoverable action ->
  escalation_returns ->
  exists w',
    attempts todo action w =
      (w',
       flat_map (fun a => [CallExecute a; CallEscalateToHuman a]) todo,
       Exhausted).
Proof.
  intros Hexec Hesc. revert w.
  induction todo as [|attempt rest IH]; intros w.
  - exists w. reflexivity.
  - cbn [attempts flat_map].
    destruct (Hexec w) as (w1 & m & ->).
    specialize (Hesc (UnrecoverableError m) w1).
    destruct (escalate_to_human (UnrecoverableError m) w1) as [w2 o].
    cbn in Hesc. subst o.
    destruct (IH w2) as (w3 & ->).
    exists w3. reflexivity.
Qed.

Lemma range_length (n : Z) : length (range n) = Z.to_nat n.
Proof. unfold range. now rewrite length_map, length_seq. Qed.

Lemma executes_in_unrecoverable_log (todo : list Z) :
  length
    (filter (fun c => is_execute c = true)
            (flat_map (fun a => [CallExecute a; CallEscalateToHuman a]) todo))
  = length todo.
Proof.
  induction todo as [|a rest IH]; [reflexivity|].
  cbn [flat_map app]. rewrite filter_cons. cbn [is_execute].
  case_decide; [|congruence].
  rewrite filter_cons. cbn [is_execute]. case_decide; [discriminate|].
  cbn [length]. now rewrite IH.
Qed.

(** Whatever the operation and the world: when every attempt fails with an
    unrecoverable error and the escalation callback returns, the operation
    is invoked once per attempt of [range(max_retries)], not once. *)
Lemma unrecoverable_failures_are_retried (self : ExecutionContext)
      (action : Action) (w : W) :
  always_unrecoverable action ->
  escalation_returns ->
  length
    (filter (fun c => is_execute c = true)
            (snd (fst (execute_with_recovery self action w))))
  = Z.to_nat (max_retries self).
Proof.
  intros Hexec Hesc. unfold execute_with_recovery.
  destruct (attempts_unrecoverable_log (range (max_retries self)) action w
              Hexec Hesc) as (w' & ->).
  assert (Hlast : filter (fun c => is_execute c = true)
                         [CallTryFallbackStrategies] = [])
    by reflexivity.
  destruct (try_fallback_strategies w') as [w2 [e|]]; cbn [fst snd];
    rewrite filter_app, length_app, executes_in_unrecoverable_log,
      range_length, Hlast; cbn [length]; lia.
Qed.

(** The run stops after an unrecoverable failure only when the escalation
    callback itself raises: the exception of the callback then leaves the
    loop. *)
Lemma escalation_raising_stops_the_run (self : ExecutionContext)
      (action : Action) (w w1 w2 : W) (m : string) (e : Exn) :
  0 < max_retries self ->
  execute action w = (w1, inr (UnrecoverableError m)) ->
  escalate_to_human (UnrecoverableError m) w1 = (w2, Some e) ->
  execute_with_recovery self action w =
    (w2, [CallExecute 0; CallEscalateToHuman 0], Raised e).
Proof.
  intros Hpos Hexec Hesc. unfold execute_with_recovery, range.
  destruct (Z.to_nat (max_retries self)) as [|n] eqn:Hn; [lia|].
  cbn [seq map attempts]. rewrite Hexec, Hesc. reflexivity.
Qed.

End RecoveryFacts.

(** C4, on the code.  With the default [max_retries = 3], an operation
    that fails with [UnrecoverableError] on its first attempt is escalated
    and then invoked again: the run makes three invocations and three
    escalations before it falls through to the fallback strategies and
    returns [None]. *)
Theorem execute_with_recovery_retries_after_unrecoverable :
  exists w,
    Recovery.execute_with_recovery Recovery.default_context "swap"
                                   Recovery.sample_world
    = (w,
       [ Recovery.CallExecute 0; Recovery.CallEscalateToHuman 0;
         Recovery.CallExecute 1; Recovery.CallEscalateToHuman 1;
         Recovery.CallExecute 2; Recovery.CallEscalateToHuman 2;
         Recovery.CallTryFallbackStrategies ],
       Recovery.Returned None)
    /\ Recovery.submitted w = 3%nat
    /\ length (Recovery.escalations w) = 3%nat.
Proof.
  eexists. split; [|split].
  - vm_compute. reflexivity.
  - reflexivity.
  - reflexivity.
Qed.

Section BreakerFacts.
Import Breaker.
#[local] Open Scope Z_scope.
Context `{!ResetPolicy} {W R : Type}.

Lemma call_rejected_when_open (func : Func W R) (now : Z)
      (self : CircuitBreaker) (w : W) :
  state self = OPEN ->
  should_attempt_reset self now = false ->
  call func now self w =
    (self, w,
     Raised (CircuitOpenError ("Circuit " +:+ name self +:+ " is open"))).
Proof.
  intros Hopen Hreset. unfold call.
  destruct (decide (state self = OPEN)); [|contradiction].
  now rewrite Hreset.
Qed.

(** While the reset is not due, an open breaker rejects call after call
    and stays as it is. *)
Lemma calls_rejected_while_open (cs : list (Func W R * Z))
      (self : CircuitBreaker) (w : W) :
  state self = OPEN ->
  Forall (fun c => should_attempt_reset self (snd c) = false) cs ->
  calls cs self w =
    (self, w,
     map (fun _ =>
            Raised (CircuitOpenError ("Circuit " +:+ name self +:+ " is open")))
         cs).
Proof.
  intros Hopen. induction 1 as [|[func now] rest Hnow Hrest IH];
    [reflexivity|].
  cbn [calls map]. cbn [snd] in Hnow.
  rewrite (call_rejected_when_open func now self w Hopen Hnow), IH.
  reflexivity.
Qed.

Lemma record_failure_thresholds (now : Z) (self : CircuitBreaker) :
  failure_threshold (record_failure now self) = failure_threshold self
  /\ success_threshold (record_failure now self) = success_threshold self
  /\ success_count (record_failure now self) = success_count self
  /\ failure_count (record_failure now self) = failure_count self + 1.
Proof.
  unfold record_failure. cbn.
  destruct (failure_threshold self <=? failure_count self + 1);
    cbn; repeat split.
Qed.

Lemma record_failure_state (now : Z) (self : CircuitBreaker) :
  state (record_failure now self) =
    if failure_threshold self <=? failure_count self + 1 then OPEN
    else state self.
Proof.
  unfold record_failure. cbn.
  destruct (failure_threshold self <=? failure_count self + 1); reflexivity.
Qed.

(** One call whose function fails: what it leaves behind. *)
Lemma call_failing_step (func : Func W R) (now : Z) (self : CircuitBreaker)
      (w : W) :
  always_fails func ->
  let self' := fst (fst (call func now self w)) in
  failure_threshold self' = failure_threshold self
  /\ (state self = CLOSED ->
      failure_count self' = failure_count self + 1
      /\ (state self' = OPEN /\ failure_threshold self <= failure_count self'
          \/ state self' = CLOSED /\ failure_count self' < failure_threshold self))
  /\ (state self <> CLOSED ->
      failure_threshold self <= failure_count self ->
      state self' = OPEN /\ failure_threshold self <= failure_count self').
Proof.
  intros Hf self'. subst self'. unfold call.
  destruct (Hf w) as (w1 & e & Hw).
  destruct (decide (state self = OPEN)) as [Hopen|Hnopen].
  - destruct (should_attempt_reset self now); cbn [fst].
    + rewrite Hw. cbn [fst].
      destruct (record_failure_thresholds now (set_state HALF_OPEN self))
        as (Ht & _ & _ & Hc).
      rewrite record_failure_state, Ht, Hc. cbn.
      split; [reflexivity|]. split; [congruence|].
      intros _ Hle.
      destruct (Z.leb_spec (failure_threshold self) (failure_count self + 1));
        [split; [reflexivity | lia] | lia].
    + split; [reflexivity|]. split; [congruence|].
      intros _ Hle. split; [assumption | lia].
  - rewrite Hw. cbn [fst].
    destruct (record_failure_thresholds now self) as (Ht & _ & _ & Hc).
    rewrite record_failure_state, Ht, Hc.
    split; [reflexivity|]. split.
    + intros Hclosed. split; [reflexivity|].
      destruct (Z.leb_spec (failure_threshold self) (failure_count self + 1));
        [left | right]; split; (lia || congruence || reflexivity).
    + intros Hnc Hle.
      destruct (Z.leb_spec (failure_threshold self) (failure_count self + 1));
        [split; [reflexivity | lia] | lia].
Qed.

(** Any number of calls whose functions all fail, from a breaker that is
    closed, or open with its threshold reached. *)
Lemma calls_failing (cs : list (Func W R * Z)) :
  Forall (fun c => always_fails (fst c)) cs ->
  forall (self : CircuitBreaker) (w : W),
    state self = CLOSED
    \/ (state self = OPEN /\ failure_threshold self <= failure_count self) ->
    let self' := fst (fst (calls cs self w)) in
    failure_threshold self' = failure_threshold self
    /\ (state self' = OPEN /\ failure_threshold self <= failure_count self'
        \/ state self = CLOSED /\ state self' = CLOSED
           /\ failure_count self' = failure_count self + Z.of_nat (length cs)
           /\ (cs <> [] -> failure_count self' < failure_threshold self)).
Proof.
  induction 1 as [|[func now] rest Hf Hrest IH]; intros self w Hstart.
  - cbn. split; [reflexivity|].
    destruct Hstart as [Hc | [Ho Hle]].
    + right. repeat split; [assumption | assumption | lia | congruence].
    + left. now split.
  - cbn [calls]. cbn [fst] in Hf.
    pose proof (call_failing_step func now self w Hf) as Hstep.
    destruct (call func now self w) as [[self1 w1] o].
    cbn [fst] in Hstep. destruct Hstep as (Ht1 & Hclosed & Hnot).
    assert (Hstart1 :
              state self1 = CLOSED
              \/ (state self1 = OPEN
                  /\ failure_threshold self1 <= failure_count self1)).
    { destruct Hstart as [Hc | [Ho Hle]].
      - destruct (Hclosed Hc) as (_ & [[Ho Hle] | [Hc1 _]]);
          [right; split; [assumption | lia] | now left].
      - right. rewrite Ht1. apply Hnot; [congruence | assumption]. }
    specialize (IH self1 w1 Hstart1).
    destruct (calls rest self1 w1) as [[self2 w2] os].
    cbn [fst] in IH |- *. destruct IH as (Ht2 & IH).
    split; [congruence|].
    destruct IH as [[Ho Hle] | (Hc1 & Hc2 & Hcount & Hlt)].
    + left. split; [assumption | lia].
    + destruct Hstart as [Hc | [Ho Hle]].
      * destruct (Hclosed Hc) as (Hcount1 & [[Ho1 _] | [_ Hlt1]]);
          [congruence|].
        right. repeat split; try assumption.
        -- cbn [length]. lia.
        -- intros _. destruct rest as [|c rest'].
           ++ cbn [length] in Hcount. lia.
           ++ rewrite <- Ht1. apply Hlt. discriminate.
      * exfalso.
        destruct (Hnot ltac:(congruence) Hle) as [Ho1 _]. congruence.
Qed.

Lemma record_success_thresholds (self : CircuitBreaker) :
  failure_threshold (record_success self) = failure_threshold self
  /\ success_threshold (record_success self) = success_threshold self.
Proof.
  unfold record_success.
  destruct (decide (state self = HALF_OPEN)); [|split; reflexivity].
  cbn. destruct (success_threshold self <=? success_count self + 1);
    split; reflexivity.
Qed.

Lemma record_success_half_open (self : CircuitBreaker) :
  state self = HALF_OPEN ->
  (success_threshold self <= success_count self + 1 ->
   state (record_success self) = CLOSED)
  /\ (success_count self + 1 < success_threshold self ->
      state (record_success self) = HALF_OPEN
      /\ success_count (record_success self) = success_count self + 1
      /\ failure_count (record_success self) = failure_count self).
Proof.
  intros Hh. unfold record_success.
  destruct (decide (state self = HALF_OPEN)); [|contradiction]. cbn.
  destruct (Z.leb_spec (success_threshold self) (success_count self + 1));
    cbn; split; intros; try lia; repeat split; assumption.
Qed.

Lemma record_success_closed (self : CircuitBreaker) :
  state self = CLOSED -> state (record_success self) = CLOSED.
Proof.
  intros Hc. unfold record_success.
  destruct (decide (state self = HALF_OPEN)); [congruence | exact Hc].
Qed.



(** A failure while half-open reopens the breaker at once. *)
Lemma half_open_failure_reopens (func : Func W R) (now : Z)
      (self : CircuitBreaker) (w : W) :
  tripped self ->
  state self = HALF_OPEN ->
  always_fails func ->
  state (fst (fst (call func now self w))) = OPEN.
Proof.
  intros Hinv Hh Hf.
  destruct (call_failing_step func now self w Hf) as (_ & _ & Hnot).
  apply Hnot; [congruence | apply Hinv; congruence].
Qed.

(** One call whose function succeeds, on a breaker that is half-open or
    closed. *)
Lemma call_succeeding_step (func : Func W R) (now : Z)
      (self : CircuitBreaker) (w : W) :
  always_succeeds func ->
  let self' := fst (fst (call func now self w)) in
  success_threshold self' = success_threshold self
  /\ (state self = CLOSED -> state self' = CLOSED)
  /\ (state self = HALF_OPEN ->
      state self' = CLOSED
      \/ state self' = HALF_OPEN
         /\ success_count self' = success_count self + 1
         /\ success_count self' < success_threshold self).
Proof.
  intros Hs self'. subst self'. unfold call.
  destruct (Hs w) as (w1 & r & Hw).
  destruct (decide (state self = OPEN)) as [Hopen|Hnopen].
  - destruct (should_attempt_reset self now); cbn [fst].
    + rewrite Hw. cbn [fst].
      destruct (record_success_thresholds (set_state HALF_OPEN self))
        as (_ & Ht).
      split; [exact Ht|]. split; congruence.
    + split; [reflexivity|]. split; congruence.
  - rewrite Hw. cbn [fst].
    destruct (record_success_thresholds self) as (_ & Ht).
    split; [exact Ht|]. split.
    + apply record_success_closed.
    + intros Hh.
      destruct (record_success_half_open self Hh) as (Hclose & Hstay).
      destruct (Z.leb_spec (success_threshold self) (success_count self + 1))
        as [Hl|Hl].
      * left. now apply Hclose.
      * right. destruct (Hstay Hl) as (Hst & Hc & _).
        repeat split; [assumption | assumption | lia].
Qed.

(** Any number of calls whose functions all succeed, from a breaker that
    is half-open or closed. *)
Lemma calls_succeeding (cs : list (Func W R * Z)) :
  Forall (fun c => always_succeeds (fst c)) cs ->
  forall (self : CircuitBreaker) (w : W),
    state self = HALF_OPEN \/ state self = CLOSED ->
    let self' := fst (fst (calls cs self w)) in
    success_threshold self' = success_threshold self
    /\ (state self' = CLOSED
        \/ state self = HALF_OPEN /\ state self' = HALF_OPEN
           /\ success_count self' = success_count self + Z.of_nat (length cs)
           /\ (cs <> [] -> success_count self' < success_threshold self)).
Proof.
  induction 1 as [|[func now] rest Hs Hrest IH]; intros self w Hstart.
  - cbn. split; [reflexivity|].
    destruct Hstart as [Hh | Hc]; [right | now left].
    repeat split; [assumption | assumption | lia | congruence].
  - cbn [calls]. cbn [fst] in Hs.
    pose proof (call_succeeding_step func now self w Hs) as Hstep.
    destruct (call func now self w) as [[self1 w1] o].
    cbn [fst] in Hstep. destruct Hstep as (Ht1 & Hclosed & Hhalf).
    assert (Hstart1 : state self1 = HALF_OPEN \/ state self1 = CLOSED).
    { destruct Hstart as [Hh | Hc].
      - destruct (Hhalf Hh) as [Hc1 | (Hh1 & _)]; [now right | now left].
      - right. now apply Hclosed. }
    specialize (IH self1 w1 Hstart1).
    destruct (calls rest self1 w1) as [[self2 w2] os].
    cbn [fst] in IH |- *. destruct IH as (Ht2 & IH).
    split; [congruence|].
    destruct IH as [Hc2 | (Hh1 & Hh2 & Hcount & Hlt)]; [now left|].
    destruct Hstart as [Hh | Hc].
    + destruct (Hhalf Hh) as [Hc1 | (_ & Hcount1 & Hlt1)]; [congruence|].
      right. repeat split; try assumption.
      * cbn [length]. lia.
      * intros _. destruct rest as [|c rest'].
        -- cbn [length] in Hcount. lia.
        -- rewrite <- Ht1. apply Hlt. discriminate.
    + specialize (Hclosed Hc). congruence.
Qed.

(** From a half-open breaker, [success_threshold] successful calls in a
    row close it. *)
Lemma half_open_successes_close (cs : list (Func W R * Z))
      (self : CircuitBreaker) (w : W) :
  state self = HALF_OPEN ->
  0 <= success_count self ->
  0 < success_threshold self ->
  length cs = Z.to_nat (success_threshold self) ->
  Forall (fun c => always_succeeds (fst c)) cs ->
  state (fst (fst (calls cs self w))) = CLOSED.
Proof.
  intros Hh Hcount Hthr Hlen Hs.
  destruct (calls_succeeding cs Hs self w (or_introl Hh))
    as (_ & [Hc | (_ & _ & Hc & Hlt)]); [exact Hc|].
  exfalso.
  assert (Hne : cs <> []).
  { intros ->. cbn in Hlen. lia. }
  specialize (Hlt Hne). rewrite Hlen in Hc. lia.
Qed.

End BreakerFacts.

(** C5.  From a closed breaker, [failure_threshold] calls in a row whose
    wrapped function fails, that is, raises an exception derived from
    [Exception], which the handler of [call] catches and records, leave
    the breaker open.  And while the breaker
    is open and the reset is not yet due, [call] raises [CircuitOpenError]
    and returns the breaker and the world as they were, whatever the
    wrapped function is: the function is not invoked, on that call and on
    every call that follows before the reset is due. *)
Theorem breaker_opens_and_fails_fast :
  forall (P : Breaker.ResetPolicy) (W R : Type)
         (self : Breaker.CircuitBreaker) (w : W),
    (forall cs : list (Breaker.Func W R * Z),
        Breaker.state self = Breaker.CLOSED ->
        0 <= Breaker.failure_count self ->
        0 < Breaker.failure_threshold self ->
        length cs = Z.to_nat (Breaker.failure_threshold self) ->
        Forall (fun c => Breaker.always_fails (fst c)) cs ->
        Breaker.state (fst (fst (Breaker.calls cs self w))) = Breaker.OPEN)
    /\ (forall (func : Breaker.Func W R) (now : Z),
           Breaker.state self = Breaker.OPEN ->
           Breaker.should_attempt_reset self now = false ->
           exists msg,
             Breaker.call func now self w =
               (self, w, Breaker.Raised (Breaker.CircuitOpenError msg)))
    /\ (forall cs : list (Breaker.Func W R * Z),
           Breaker.state self = Breaker.OPEN ->
           Forall (fun c => Breaker.should_attempt_reset self (snd c) = false)
                  cs ->
           exists msg,
             Breaker.calls cs self w =
               (self, w,
                map (fun _ => Breaker.Raised (Breaker.CircuitOpenError msg))
                    cs)).
Proof.
  intros P W R self w. split; [|split].
  - intros cs Hclosed Hcount Hthr Hlen Hfail.
    destruct (calls_failing cs Hfail self w (or_introl Hclosed))
      as (_ & [[Ho _] | (_ & _ & Hc & Hlt)]); [exact Ho|].
    exfalso.
    assert (Hne : cs <> []).
    { intros ->. cbn in Hlen. lia. }
    specialize (Hlt Hne). rewrite Hlen in Hc. lia.
  - intros func now Hopen Hreset. eexists.
    now apply call_rejected_when_open.
  - intros cs Hopen Hreset. eexists.
    now apply calls_rejected_while_open.
Qed.

Lemma breaker_opens_and_fails_fast_witness :
  Breaker.state
    (fst (fst (Breaker.calls
                 [ (Breaker.rpc_down, 0); (Breaker.rpc_down, 1);
                   (Breaker.rpc_down, 2); (Breaker.rpc_down, 3);
                   (Breaker.rpc_down, 4) ]
                 (Breaker.init "alchemy" None None None) 0%nat)))
  = Breaker.OPEN.
Proof.
  apply (proj1 (breaker_opens_and_fails_fast
                  Breaker.timeout_policy nat string
                  (Breaker.init "alchemy" None None None) 0%nat)).
  - reflexivity.
  - cbn. lia.
  - cbn. lia.
  - reflexivity.
  - repeat constructor; intros w; exists (S w), "connection refused";
      reflexivity.
Defined.

(** C6, on the code.  A breaker with [success_threshold = 2] closes on a
    single success of its second half-open phase: the success of the first
    phase is still counted after the failure that reopened the breaker,
    since [record_failure] leaves [success_count] as it is. *)
Theorem half_open_successes_counted_across_reopening :
  Breaker.success_threshold Breaker.sample_breaker = 2
  /\ (let after2 :=
        fst (fst (Breaker.calls (firstn 2 Breaker.sample_calls)
                                Breaker.sample_breaker 0%nat)) in
      Breaker.state after2 = Breaker.HALF_OPEN
      /\ Breaker.success_count after2 = 1)
  /\ (let after3 :=
        fst (fst (Breaker.calls (firstn 3 Breaker.sample_calls)
                                Breaker.sample_breaker 0%nat)) in
      Breaker.state after3 = Breaker.OPEN
      /\ Breaker.success_count after3 = 1)
  /\ (let after4 :=
        fst (fst (Breaker.calls Breaker.sample_calls
                                Breaker.sample_breaker 0%nat)) in
      Breaker.state after4 = Breaker.CLOSED)
  /\ snd (Breaker.calls Breaker.sample_calls Breaker.sample_breaker 0%nat)
     = [ Breaker.Raised (Breaker.FuncError "connection refused");
         Breaker.Returned "0x2a";
         Breaker.Raised (Breaker.FuncError "connection refused");
         Breaker.Returned "0x2a" ].
Proof.
  split; [reflexivity|].
  split; [vm_compute; split; reflexivity|].
  split; [vm_compute; split; reflexivity|].
  split; vm_compute; reflexivity.
Qed.


(* ===================================================================== *)
(** * Part III: further properties of the code *)
(* ===================================================================== *)

Section StateMachineRunFacts.
Import StateMachine StateMachineRuns.
Context {W : Type} `{!Collaborators W}.

Lemma transition_to_machine (self : StrategyStateMachine) (w : W)
      (r : Request) :
  fst (fst (transition_to (target r) (request_context r) (at_time r) self w))
  = replay_step self r.
Proof.
  unfold replay_step.
  destruct (allowed (current_state self) (target r)) eqn:Ha.
  - rewrite (transition_to_accepted _ _ _ _ _ Ha). cbv zeta.
    destruct (persist_state _ w) as [w1 [msg|]]; [reflexivity|].
    destruct (emit_state_change_event _ _ w1) as [w2 [msg|]]; reflexivity.
  - now rewrite (transition_to_rejected _ _ _ _ _ Ha).
Qed.

Lemma run_machine (rs : list Request) (self : StrategyStateMachine) (w : W) :
  fst (fst (run rs self w)) = replay rs self.
Proof.
  revert self w. induction rs as [|r rest IH]; intros self w; [reflexivity|].
  cbn [run replay fold_left].
  pose proof (transition_to_machine self w r) as Hstep.
  destruct (transition_to _ _ _ self w) as [[self1 w1] o].
  cbn [fst] in Hstep. subst self1.
  specialize (IH (replay_step self r) w1).
  destruct (run rest (replay_step self r) w1) as [[self2 w2] os].
  exact IH.
Qed.

Lemma linked_snoc (start : StrategyState) (h : list StateTransition)
      (mid finish : StrategyState) (ctx : option Dict) (now : Z) :
  linked start h mid ->
  listed mid finish ->
  linked start
         (h ++ [ {| from_state := mid; to_state := finish;
                    context := ctx; timestamp := now |} ])
         finish.
Proof.
  revert start. induction h as [|t h IH]; intros start Hl Hlisted; cbn in *.
  - subst. repeat split. exact Hlisted.
  - destruct Hl as (Hfrom & Hstep & Hrest). repeat split; auto.
Qed.

Lemma replay_step_linked (start : StrategyState)
      (self : StrategyStateMachine) (r : Request) :
  linked start (state_history self) (current_state self) ->
  linked start (state_history (replay_step self r))
         (current_state (replay_step self r)).
Proof.
  intros Hl. unfold replay_step.
  destruct (allowed (current_state self) (target r)) eqn:Ha; [|exact Hl].
  cbn [updated state_history current_state].
  apply linked_snoc; [exact Hl | now apply allowed_listed].
Qed.

Lemma replay_linked (start : StrategyState) (rs : list Request)
      (self : StrategyStateMachine) :
  linked start (state_history self) (current_state self) ->
  linked start (state_history (replay rs self)) (current_state (replay rs self)).
Proof.
  revert self. induction rs as [|r rest IH]; intros self Hl; [exact Hl|].
  cbn [replay fold_left]. apply IH. now apply replay_step_linked.
Qed.

End StateMachineRunFacts.

(** X1.  Whatever the collaborators do, the machine that a run of
    [transition_to] calls leaves in memory is the one that the requests and
    the table alone determine: a failure to persist or to emit neither
    rolls a transition back nor blocks the next one.  In particular the
    same requests end in the same machine under two different sets of
    collaborators. *)
Theorem run_machine_independent_of_collaborators :
  forall (W1 W2 : Type) (C1 : StateMachine.Collaborators W1)
         (C2 : StateMachine.Collaborators W2)
         (rs : list StateMachineRuns.Request)
         (self : StateMachine.StrategyStateMachine) (w1 : W1) (w2 : W2),
    fst (fst (StateMachineRuns.run rs self w1))
    = StateMachineRuns.replay rs self
    /\ fst (fst (StateMachineRuns.run rs self w1))
       = fst (fst (StateMachineRuns.run rs self w2)).
Proof.
  intros W1 W2 C1 C2 rs self w1 w2.
  split; [apply run_machine|]. now rewrite !run_machine.
Qed.

(** X2.  Starting from [__init__], after any run of [transition_to] calls
    the history is a path of the transition table: it starts at the
    initial state, every record follows a listed transition from the state
    the record before it entered, and it ends at [current_state]. *)
Theorem run_history_is_a_path_of_the_table :
  forall (W : Type) (C : StateMachine.Collaborators W) (sid : string)
         (initial_state : option StateMachine.StrategyState)
         (rs : list StateMachineRuns.Request) (w : W),
    let self' :=
      fst (fst (StateMachineRuns.run
                  rs (StateMachine.init sid initial_state) w)) in
    StateMachineRuns.linked
      (default StateMachine.IDLE initial_state)
      (StateMachine.state_history self')
      (StateMachine.current_state self').
Proof.
  intros W C sid initial_state rs w. cbv zeta. rewrite run_machine.
  apply replay_linked. reflexivity.
Qed.

Section StateMachineHistoryFacts.
Import StateMachine StateMachineRuns.
Context {W : Type} `{!Collaborators W}.

(** One call either is refused and leaves the machine alone, or appends
    one record; it never touches [strategy_id]. *)
Lemma transition_to_appends (self : StrategyStateMachine) (w : W)
      (r : Request) :
  let '(self1, _, o) :=
    transition_to (target r) (request_context r) (at_time r) self w in
  strategy_id self1 = strategy_id self
  /\ (refused o = true /\ state_history self1 = state_history self
      \/ refused o = false
         /\ exists t, state_history self1 = state_history self ++ [t]
                      /\ to_state t = target r
                      /\ timestamp t = at_time r).
Proof.
  destruct (allowed (current_state self) (target r)) eqn:Ha.
  - rewrite (transition_to_accepted _ _ _ _ _ Ha). cbv zeta.
    set (t := {| from_state := current_state self; to_state := target r;
                 context := request_context r; timestamp := at_time r |}).
    destruct (persist_state _ w) as [w1 [msg|]].
    + split; [reflexivity|]. right. split; [reflexivity|].
      exists t. repeat split.
    + destruct (emit_state_change_event _ _ w1) as [w2 [msg|]];
        (split; [reflexivity|]; right; split; [reflexivity|];
         exists t; repeat split).
  - rewrite (transition_to_rejected _ _ _ _ _ Ha).
    split; [reflexivity|]. left. split; reflexivity.
Qed.

Lemma run_appends (rs : list Request) (self : StrategyStateMachine) (w : W) :
  let '(self', _, os) := run rs self w in
  strategy_id self' = strategy_id self
  /\ length os = length rs
  /\ exists suffix,
       state_history self' = state_history self ++ suffix
       /\ length suffix = length (filter (fun o => refused o = false) os).
Proof.
  revert self w. induction rs as [|r rest IH]; intros self w.
  - cbn. repeat split. exists []. split; [now rewrite app_nil_r | reflexivity].
  - cbn [run].
    pose proof (transition_to_appends self w r) as Hstep.
    destruct (transition_to _ _ _ self w) as [[self1 w1] o].
    specialize (IH self1 w1).
    destruct (run rest self1 w1) as [[self2 w2] os].
    destruct Hstep as (Hid & Hstep). destruct IH as (Hid2 & Hlen & suffix & Hh & Hs).
    split; [congruence|]. split; [cbn; lia|].
    rewrite filter_cons.
    destruct Hstep as [(Hr & Hsame) | (Hr & t & Hone & _)].
    + exists suffix. split; [congruence|].
      case_decide; [congruence | exact Hs].
    + exists (t :: suffix). split.
      * rewrite Hh, Hone, <- app_assoc. reflexivity.
      * case_decide; [cbn; lia | congruence].
Qed.

Lemma linked_last (start : StrategyState) (h : list StateTransition)
      (finish : StrategyState) :
  linked start h finish ->
  h = [] /\ start = finish
  \/ exists h' t,
       h = h' ++ [t]
       /\ to_state t = finish
       /\ listed (from_state t) (to_state t)
       /\ linked start h' (from_state t).
Proof.
  revert start. induction h as [|t h IH]; intros start Hl.
  - left. split; [reflexivity | exact Hl].
  - right. destruct Hl as (Hfrom & Hlisted & Hrest).
    destruct (IH _ Hrest) as [(-> & Hto) | (h' & t' & -> & Hto & Hl' & Hrest')].
    + exists [], t. repeat split; auto. cbn. congruence.
    + exists (t :: h'), t'. repeat split; auto.
Qed.

Lemma only_monitoring_completes (s : StrategyState) :
  listed s COMPLETED -> s = MONITORING.
Proof.
  intros Hl. apply allowed_listed in Hl.
  destruct s; vm_compute in Hl; congruence.
Qed.

Lemma only_executing_monitors (s : StrategyState) :
  listed s MONITORING -> s = EXECUTING.
Proof.
  intros Hl. apply allowed_listed in Hl.
  destruct s; vm_compute in Hl; congruence.
Qed.

Lemma last_cons_any {A : Type} (x d : A) (l : list A) :
  List.last (x :: l) d = List.last l x.
Proof.
  revert x d. induction l as [|y l IH]; intros x d; [reflexivity|].
  change (List.last (x :: y :: l) d) with (List.last (y :: l) d).
  now rewrite (IH y d), (IH y x).
Qed.

Lemma replay_walk (targets : list StrategyState) (now : Z)
      (self : StrategyStateMachine) :
  walkable (current_state self) targets = true ->
  let self' :=
    replay (map (fun x => {| target := x; request_context := None;
                             at_time := now |}) targets) self in
  current_state self' = List.last targets (current_state self)
  /\ length (state_history self')
     = (length (state_history self) + length targets)%nat.
Proof.
  revert self. induction targets as [|x rest IH]; intros self Hw; cbv zeta.
  - cbn. split; [reflexivity | lia].
  - cbn [walkable] in Hw. apply andb_true_iff in Hw as [Ha Hrest].
    assert (Hstep : replay_step self {| target := x; request_context := None;
                                        at_time := now |}
                    = updated x None now self).
    { unfold replay_step. cbn [target request_context at_time].
      now rewrite Ha. }
    cbn [map]. unfold replay. cbn [fold_left]. rewrite Hstep.
    specialize (IH (updated x None now self) Hrest). cbv zeta in IH.
    unfold replay in IH.
    cbn [current_state state_history updated] in IH.
    destruct IH as (Hcur & Hlen). split.
    + rewrite Hcur. symmetry. apply last_cons_any.
    + rewrite Hlen, length_app. cbn [length]. lia.
Qed.

Lemma route_walkable (s t : StrategyState) :
  walkable s (to_idle s ++ from_idle t) = true
  /\ List.last (to_idle s ++ from_idle t) s = t.
Proof. destruct s, t; split; reflexivity. Qed.

Lemma route_walks (self : StrategyStateMachine) (t : StrategyState)
      (now : Z) :
  current_state (replay (route (current_state self) t now) self) = t
  /\ length (state_history (replay (route (current_state self) t now) self))
     = (length (state_history self)
        + length (route (current_state self) t now))%nat.
Proof.
  destruct (route_walkable (current_state self) t) as (Hw & Hlast).
  destruct (replay_walk _ now self Hw) as (Hcur & Hlen).
  unfold route. rewrite length_map. split; [congruence | exact Hlen].
Qed.

End StateMachineHistoryFacts.

(** X3.  The history is append-only and the strategy id is fixed: a run
    of calls leaves the records that were there in place, in order, and
    adds one record for every call that the table did not refuse, also
    when persisting or emitting failed after it. *)
Theorem run_history_is_append_only :
  forall (W : Type) (C : StateMachine.Collaborators W)
         (rs : list StateMachineRuns.Request)
         (self : StateMachine.StrategyStateMachine) (w : W),
    let self' := fst (fst (StateMachineRuns.run rs self w)) in
    let outcomes := snd (StateMachineRuns.run rs self w) in
    StateMachine.strategy_id self' = StateMachine.strategy_id self
    /\ length outcomes = length rs
    /\ exists suffix,
         StateMachine.state_history self'
         = StateMachine.state_history self ++ suffix
         /\ length suffix
            = length (filter (fun o => StateMachineRuns.refused o = false)
                             outcomes).
Proof.
  intros W C rs self w. cbv zeta.
  pose proof (run_appends rs self w) as H.
  destruct (StateMachineRuns.run rs self w) as [[self' w'] os]. exact H.
Qed.

(** X4.  The machine cannot get stuck and no state is out of reach: from
    whatever state the machine is in, the requests of [route] (back to
    idle along the table, then forward to the target) are all accepted and
    leave the machine in the target state, whatever the collaborators
    do. *)
Theorem every_state_reachable_from_every_state :
  forall (W : Type) (C : StateMachine.Collaborators W)
         (self : StateMachine.StrategyStateMachine)
         (t : StateMachine.StrategyState) (now : Z) (w : W),
    let rs := StateMachineRuns.route (StateMachine.current_state self) t now in
    let self' := fst (fst (StateMachineRuns.run rs self w)) in
    StateMachine.current_state self' = t
    /\ length (StateMachine.state_history self')
       = (length (StateMachine.state_history self) + length rs)%nat.
Proof.
  intros W C self t now w. cbv zeta. rewrite run_machine.
  apply route_walks.
Qed.

(** X5.  A machine started at [IDLE] can be in [COMPLETED] only by way of
    [EXECUTING] and [MONITORING]: whenever a run ends in [COMPLETED], the
    last three records of the history enter [EXECUTING], [MONITORING] and
    [COMPLETED], in that order. *)
Theorem completed_only_through_executing_and_monitoring :
  forall (W : Type) (C : StateMachine.Collaborators W) (sid : string)
         (rs : list StateMachineRuns.Request) (w : W),
    let self' :=
      fst (fst (StateMachineRuns.run rs (StateMachine.init sid None) w)) in
    StateMachine.current_state self' = StateMachine.COMPLETED ->
    exists h t1 t2 t3,
      StateMachine.state_history self' = h ++ [t1; t2; t3]
      /\ StateMachine.to_state t1 = StateMachine.EXECUTING
      /\ StateMachine.from_state t2 = StateMachine.EXECUTING
      /\ StateMachine.to_state t2 = StateMachine.MONITORING
      /\ StateMachine.from_state t3 = StateMachine.MONITORING
      /\ StateMachine.to_state t3 = StateMachine.COMPLETED.
Proof.
  intros W C sid rs w. cbv zeta. rewrite run_machine. intros Hdone.
  pose proof (replay_linked StateMachine.IDLE rs (StateMachine.init sid None)
                            eq_refl) as Hl.
  rewrite Hdone in Hl.
  destruct (linked_last _ _ _ Hl)
    as [(_ & Hne) | (h3 & t3 & Hh3 & Hto3 & Hl3 & Hrest3)];
    [discriminate|].
  rewrite Hto3 in Hl3. apply only_monitoring_completes in Hl3.
  rewrite Hl3 in Hrest3.
  destruct (linked_last _ _ _ Hrest3)
    as [(_ & Hne) | (h2 & t2 & Hh2 & Hto2 & Hl2 & Hrest2)];
    [discriminate|].
  rewrite Hto2 in Hl2. apply only_executing_monitors in Hl2.
  rewrite Hl2 in Hrest2.
  destruct (linked_last _ _ _ Hrest2)
    as [(_ & Hne) | (h1 & t1 & Hh1 & Hto1 & _ & _)];
    [discriminate|].
  exists h1, t1, t2, t3. rewrite Hh3, Hh2, Hh1, <- !app_assoc.
  repeat split; assumption.
Qed.

Lemma completed_only_through_executing_and_monitoring_witness :
  exists h t1 t2 t3,
    StateMachine.state_history
      (fst (fst (@StateMachineRuns.run
                   unit StateMachineRuns.failing_collaborators
                   (StateMachineRuns.route StateMachine.IDLE
                                           StateMachine.COMPLETED 7)
                   (StateMachine.init "dca-1" None) tt)))
    = h ++ [t1; t2; t3]
    /\ StateMachine.to_state t1 = StateMachine.EXECUTING
    /\ StateMachine.from_state t2 = StateMachine.EXECUTING
    /\ StateMachine.to_state t2 = StateMachine.MONITORING
    /\ StateMachine.from_state t3 = StateMachine.MONITORING
    /\ StateMachine.to_state t3 = StateMachine.COMPLETED.
Proof.
  apply (completed_only_through_executing_and_monitoring
           unit StateMachineRuns.failing_collaborators "dca-1"
           (StateMachineRuns.route StateMachine.IDLE StateMachine.COMPLETED 7)
           tt).
  reflexivity.
Defined.

Section RecoveryRunFacts.
Import Recovery RecoveryRuns.
Context {W Action Result : Type} `{!Methods W Action Result}.

Lemma counts_cons (c : Call) (log : list Call) :
  executions (c :: log)
  = ((if is_execute c then 1 else 0) + executions log)%nat
  /\ handlings (c :: log)
     = ((if is_handler c then 1 else 0) + handlings log)%nat
  /\ fallbacks (c :: log)
     = ((if is_fallback c then 1 else 0) + fallbacks log)%nat.
Proof.
  unfold executions, handlings, fallbacks. cbn [List.filter].
  destruct c; cbn; repeat split.
Qed.

Lemma counts_app (l1 l2 : list Call) :
  executions (l1 ++ l2) = (executions l1 + executions l2)%nat
  /\ handlings (l1 ++ l2) = (handlings l1 + handlings l2)%nat
  /\ fallbacks (l1 ++ l2) = (fallbacks l1 + fallbacks l2)%nat.
Proof.
  unfold executions, handlings, fallbacks.
  rewrite !List.filter_app, !length_app. repeat split.
Qed.

(** What the loop leaves in the log, by the way it ends. *)
Lemma attempts_shape (todo : list Z) (action : Action) (w : W) :
  let '(_, log, fin) := attempts todo action w in
  fallbacks log = 0%nat
  /\ match fin with
     | Exhausted =>
         executions log = length todo /\ handlings log = length todo
     | LoopReturn _ =>
         (1 <= executions log <= length todo)%nat
         /\ (handlings log + 1 = executions log)%nat
         /\ exists pre attempt, log = pre ++ [CallExecute attempt]
     | LoopRaise _ =>
         (1 <= executions log <= length todo)%nat
         /\ (handlings log <= executions log)%nat
     end.
Proof.
  revert w. induction todo as [|attempt rest IH]; intros w.
  - cbn. repeat split.
  - cbn [attempts].
    destruct (execute action w) as [w1 [r | [m | m | m]]].
    + cbn. repeat split; try lia. now exists [], attempt.
    + destruct (handle_retry attempt (RecoverableError m) w1) as [w2 [e|]].
      * cbn. repeat split; lia.
      * specialize (IH w2).
        destruct (attempts rest action w2) as [[w3 log] fin].
        destruct IH as (Hf & IH).
        destruct (counts_cons (CallExecute attempt)
                              (CallHandleRetry attempt :: log))
          as (He1 & Hh1 & Hf1).
        destruct (counts_cons (CallHandleRetry attempt) log)
          as (He2 & Hh2 & Hf2).
        cbn [is_execute is_handler is_fallback] in *.
        rewrite He1, Hh1, Hf1, He2, Hh2, Hf2. cbn [length].
        split; [lia|].
        destruct fin as [|r|e].
        -- lia.
        -- destruct IH as (H1 & H2 & pre & a & ->).
           repeat split; try lia.
           exists (CallExecute attempt :: CallHandleRetry attempt :: pre), a.
           reflexivity.
        -- lia.
    + destruct (escalate_to_human (UnrecoverableError m) w1) as [w2 [e|]].
      * cbn. repeat split; lia.
      * specialize (IH w2).
        destruct (attempts rest action w2) as [[w3 log] fin].
        destruct IH as (Hf & IH).
        destruct (counts_cons (CallExecute attempt)
                              (CallEscalateToHuman attempt :: log))
          as (He1 & Hh1 & Hf1).
        destruct (counts_cons (CallEscalateToHuman attempt) log)
          as (He2 & Hh2 & Hf2).
        cbn [is_execute is_handler is_fallback] in *.
        rewrite He1, Hh1, Hf1, He2, Hh2, Hf2. cbn [length].
        split; [lia|].
        destruct fin as [|r|e].
        -- lia.
        -- destruct IH as (H1 & H2 & pre & a & ->).
           repeat split; try lia.
           exists (CallExecute attempt :: CallEscalateToHuman attempt :: pre), a.
           reflexivity.
        -- lia.
    + cbn. repeat split; lia.
Qed.

Lemma attempts_recoverable_log (todo : list Z) (action : Action) (w : W) :
  always_recoverable action ->
  retry_returns ->
  exists w',
    attempts todo action w =
      (w',
       flat_map (fun a => [CallExecute a; CallHandleRetry a]) todo,
       Exhausted).
Proof.
  intros Hexec Hret. revert w.
  induction todo as [|attempt rest IH]; intros w.
  - exists w. reflexivity.
  - cbn [attempts flat_map].
    destruct (Hexec w) as (w1 & m & ->).
    specialize (Hret attempt (RecoverableError m) w1).
    destruct (handle_retry attempt (RecoverableError m) w1) as [w2 o].
    cbn in Hret. subst o.
    destruct (IH w2) as (w3 & ->).
    exists w3. reflexivity.
Qed.

(** A value that the loop returns is one that the operation returned. *)
Lemma attempts_return_from_execute (todo : list Z) (action : Action) (w : W)
      (r : Result) :
  snd (attempts todo action w) = LoopReturn r ->
  exists w0 w1, execute action w0 = (w1, inl r).
Proof.
  revert w. induction todo as [|attempt rest IH]; intros w; [discriminate|].
  cbn [attempts].
  destruct (execute action w) as [w1 [r0 | [m | m | m]]] eqn:Hexec.
  - cbn. intros [= ->]. now exists w, w1.
  - destruct (handle_retry attempt (RecoverableError m) w1) as [w2 [e|]];
      [discriminate|].
    specialize (IH w2).
    destruct (attempts rest action w2) as [[w3 log] fin]. exact IH.
  - destruct (escalate_to_human (UnrecoverableError m) w1) as [w2 [e|]];
      [discriminate|].
    specialize (IH w2).
    destruct (attempts rest action w2) as [[w3 log] fin]. exact IH.
  - discriminate.
Qed.

(** The log of a run, by the way the method ends. *)
Lemma execute_with_recovery_log (self : ExecutionContext) (action : Action)
      (w : W) :
  let log := snd (fst (execute_with_recovery self action w)) in
  let outcome := snd (execute_with_recovery self action w) in
  (forall r,
      outcome = Returned (Some r) ->
      (exists pre attempt, log = pre ++ [CallExecute attempt])
      /\ (handlings log + 1 = executions log)%nat
      /\ fallbacks log = 0%nat
      /\ exists w0 w1, execute action w0 = (w1, inl r))
  /\ (outcome = Returned None ->
      (exists pre, log = pre ++ [CallTryFallbackStrategies])
      /\ executions log = Z.to_nat (max_retries self)
      /\ handlings log = executions log).
Proof.
  cbv zeta. unfold execute_with_recovery.
  pose proof (attempts_shape (range (max_retries self)) action w) as Hs.
  pose proof (attempts_return_from_execute (range (max_retries self))
                                           action w) as Hr.
  rewrite <- (range_length (max_retries self)).
  destruct (attempts _ action w) as [[w1 log] fin].
  destruct Hs as (Hf & Hs).
  destruct fin as [|r0|e]; cbn [fst snd] in *.
  - destruct Hs as (He & Hh).
    destruct (try_fallback_strategies w1) as [w2 [e|]];
      cbn [fst snd]; (split; [discriminate|]); [discriminate|].
    intros _. split; [now exists log|].
    destruct (counts_app log [CallTryFallbackStrategies])
      as (-> & -> & _).
    cbn. lia.
  - split; [|discriminate]. intros r [= <-].
    destruct Hs as (H1 & H2 & Hlast).
    repeat split; try assumption. now apply Hr.
  - split; discriminate.
Qed.

End RecoveryRunFacts.

(** X6.  Whatever the operation and the handlers do, one run of
    [execute_with_recovery] invokes the operation at most [max_retries]
    times, calls a handler at most once per invocation, and tries the
    fallback strategies at most once. *)
Theorem execute_with_recovery_bounds_invocations :
  forall (W Action Result : Type) (M : Recovery.Methods W Action Result)
         (self : Recovery.ExecutionContext) (action : Action) (w : W),
    let log := snd (fst (Recovery.execute_with_recovery self action w)) in
    (RecoveryRuns.executions log <= Z.to_nat (Recovery.max_retries self))%nat
    /\ (RecoveryRuns.handlings log <= RecoveryRuns.executions log)%nat
    /\ (RecoveryRuns.fallbacks log <= 1)%nat.
Proof.
  intros W Action Result M self action w. cbv zeta.
  unfold Recovery.execute_with_recovery.
  pose proof (attempts_shape (Recovery.range (Recovery.max_retries self))
                             action w) as Hs.
  rewrite <- (range_length (Recovery.max_retries self)).
  destruct (Recovery.attempts _ action w) as [[w1 log] fin].
  destruct Hs as (Hf & Hs).
  destruct fin as [|r|e]; cbn [fst snd].
  - destruct (Recovery.try_fallback_strategies w1) as [w2 [e|]];
      cbn [fst snd];
      destruct (counts_app log [Recovery.CallTryFallbackStrategies])
        as (-> & -> & ->);
      cbn; lia.
  - lia.
  - lia.
Qed.

(** X7.  With [max_retries] zero or negative the operation is never
    invoked: the run goes straight to the fallback strategies, and returns
    [None] or raises what they raise. *)
Theorem execute_with_recovery_without_attempts :
  forall (W Action Result : Type) (M : Recovery.Methods W Action Result)
         (self : Recovery.ExecutionContext) (action : Action) (w : W),
    Recovery.max_retries self <= 0 ->
    Recovery.execute_with_recovery self action w
    = (fst (Recovery.try_fallback_strategies w),
       [Recovery.CallTryFallbackStrategies],
       match snd (Recovery.try_fallback_strategies w) with
       | Some e => Recovery.Raised e
       | None => Recovery.Returned None
       end).
Proof.
  intros W Action Result M self action w Hle.
  unfold Recovery.execute_with_recovery, Recovery.range.
  replace (Z.to_nat (Recovery.max_retries self)) with 0%nat by lia.
  cbn [seq map Recovery.attempts].
  destruct (Recovery.try_fallback_strategies w) as [w2 [e|]]; reflexivity.
Qed.

Lemma execute_with_recovery_without_attempts_witness :
  Recovery.execute_with_recovery
    {| Recovery.max_retries := 0; Recovery.retry_delay_seconds := 5%Q;
       Recovery.fallback_strategies := [] |}
    "swap" Recovery.sample_world
  = (Recovery.sample_world, [Recovery.CallTryFallbackStrategies],
     Recovery.Returned None).
Proof.
  apply (execute_with_recovery_without_attempts
           Recovery.SampleWorld string string Recovery.sample_methods
           {| Recovery.max_retries := 0; Recovery.retry_delay_seconds := 5%Q;
              Recovery.fallback_strategies := [] |}
           "swap" Recovery.sample_world).
  cbn. lia.
Defined.

(** X8.  What the result of a run tells its caller.  Whatever the
    method hands back from the operation, [None] included, comes from the
    last call of the run, an invocation of the operation: every earlier
    invocation failed and was handled, and the fallback was not tried.
    When the caller gets [None], either the operation itself returned
    [None] on that last call, or [max_retries] invocations all failed and
    were all handled and the fallback was tried last; the result does not
    tell the two apart.  Only for an operation that never returns [None]
    does [None] mean that the retries were used up. *)
Theorem execute_with_recovery_result_meaning :
  forall (W Action Result : Type) (M : Recovery.Methods W Action Result)
         (is_none : Result -> bool)
         (self : Recovery.ExecutionContext) (action : Action) (w : W),
    let log := snd (fst (Recovery.execute_with_recovery self action w)) in
    let outcome := snd (Recovery.execute_with_recovery self action w) in
    let from_operation :=
      (exists pre attempt, log = pre ++ [Recovery.CallExecute attempt])
      /\ (RecoveryRuns.handlings log + 1 = RecoveryRuns.executions log)%nat
      /\ RecoveryRuns.fallbacks log = 0%nat in
    let retries_used_up :=
      (exists pre, log = pre ++ [Recovery.CallTryFallbackStrategies])
      /\ RecoveryRuns.executions log = Z.to_nat (Recovery.max_retries self)
      /\ RecoveryRuns.handlings log = RecoveryRuns.executions log in
    (forall r, outcome = Recovery.Returned (Some r) -> from_operation)
    /\ (RecoveryRuns.caller_gets_None is_none outcome = true ->
        (from_operation
         /\ exists r, outcome = Recovery.Returned (Some r)
                      /\ is_none r = true)
        \/ (retries_used_up /\ outcome = Recovery.Returned None))
    /\ (RecoveryRuns.never_returns_None is_none action ->
        RecoveryRuns.caller_gets_None is_none outcome = true ->
        retries_used_up).
Proof.
  intros W Action Result M is_none self action w. cbv zeta.
  destruct (execute_with_recovery_log self action w) as (Hsome & Hnone).
  cbv zeta in Hsome, Hnone.
  destruct (snd (Recovery.execute_with_recovery self action w))
    as [[r|]|e]; cbn [RecoveryRuns.caller_gets_None].
  - destruct (Hsome r eq_refl) as (H1 & H2 & H3 & w0 & w1 & Hexec).
    split; [intros r0 _; repeat split; assumption|].
    split.
    + intros Hn. left. split; [repeat split; assumption|].
      exists r. now split.
    + intros Hnever Hn. rewrite (Hnever w0 w1 r Hexec) in Hn. discriminate.
  - split; [discriminate|].
    split; [intros _; right; split; [now apply Hnone | reflexivity]|].
    intros _ _. now apply Hnone.
  - split; [discriminate|]. split; discriminate.
Qed.

(** An operation that returns [None] at once: the caller gets [None]
    after a single invocation, with the fallback not tried. *)
Lemma execute_with_recovery_result_meaning_witness :
  RecoveryRuns.caller_gets_None
    (fun r : option string => bool_decide (r = None))
    (snd (@Recovery.execute_with_recovery
            nat string (option string) RecoveryRuns.silent_methods
            Recovery.default_context "swap" 0%nat)) = true
  /\ snd (fst (@Recovery.execute_with_recovery
                 nat string (option string) RecoveryRuns.silent_methods
                 Recovery.default_context "swap" 0%nat))
     = [Recovery.CallExecute 0]
  /\ exists pre attempt,
       snd (fst (@Recovery.execute_with_recovery
                   nat string (option string) RecoveryRuns.silent_methods
                   Recovery.default_context "swap" 0%nat))
       = pre ++ [Recovery.CallExecute attempt].
Proof.
  split; [reflexivity|]. split; [reflexivity|].
  apply (proj1 (execute_with_recovery_result_meaning
                  nat string (option string) RecoveryRuns.silent_methods
                  (fun r => bool_decide (r = None))
                  Recovery.default_context "swap" 0%nat) None).
  reflexivity.
Defined.

(** X9.  When every attempt fails with a recoverable error and
    [handle_retry] returns, the run alternates invocation and
    [handle_retry] for the attempts 0 to [max_retries - 1] and then tries
    the fallback: [handle_retry] is also called after the last attempt,
    which no retry follows. *)
Theorem recoverable_failures_are_handled_after_every_attempt :
  forall (W Action Result : Type) (M : Recovery.Methods W Action Result)
         (self : Recovery.ExecutionContext) (action : Action) (w : W),
    RecoveryRuns.always_recoverable action ->
    RecoveryRuns.retry_returns ->
    snd (fst (Recovery.execute_with_recovery self action w))
    = flat_map (fun a => [Recovery.CallExecute a; Recovery.CallHandleRetry a])
               (Recovery.range (Recovery.max_retries self))
      ++ [Recovery.CallTryFallbackStrategies].
Proof.
  intros W Action Result M self action w Hexec Hret.
  unfold Recovery.execute_with_recovery.
  destruct (attempts_recoverable_log
              (Recovery.range (Recovery.max_retries self)) action w
              Hexec Hret) as (w' & ->).
  destruct (Recovery.try_fallback_strategies w') as [w2 [e|]]; reflexivity.
Qed.

Lemma recoverable_failures_are_handled_after_every_attempt_witness :
  snd (fst (@Recovery.execute_with_recovery
              nat string string RecoveryRuns.timing_out_methods
              Recovery.default_context "swap" 0%nat))
  = [ Recovery.CallExecute 0; Recovery.CallHandleRetry 0;
      Recovery.CallExecute 1; Recovery.CallHandleRetry 1;
      Recovery.CallExecute 2; Recovery.CallHandleRetry 2;
      Recovery.CallTryFallbackStrategies ].
Proof.
  apply (recoverable_failures_are_handled_after_every_attempt
           nat string string RecoveryRuns.timing_out_methods
           Recovery.default_context "swap" 0%nat).
  - intros w. exists (S w), "timeout". reflexivity.
  - intros attempt e w. reflexivity.
Defined.

Section BreakerRunFacts.
Import Breaker BreakerRuns.
#[local] Open Scope Z_scope.
Context `{!ResetPolicy} {W R : Type}.

Lemma calls_app (cs1 cs2 : list (Func W R * Z)) (self : CircuitBreaker)
      (w : W) :
  calls (cs1 ++ cs2) self w =
    let '(self1, w1, os1) := calls cs1 self w in
    let '(self2, w2, os2) := calls cs2 self1 w1 in
    (self2, w2, os1 ++ os2).
Proof.
  revert self w. induction cs1 as [|[func now] rest IH]; intros self w.
  - cbn. now destruct (calls cs2 self w) as [[self2 w2] os2].
  - cbn [calls app].
    destruct (call func now self w) as [[self1 w1] o].
    rewrite IH.
    destruct (calls rest self1 w1) as [[self2 w2] os].
    destruct (calls cs2 self2 w2) as [[self3 w3] os2]. reflexivity.
Qed.




(** Failing calls that stay below the threshold leave a closed breaker
    closed and count up. *)
Lemma calls_failing_below_threshold (cs : list (Func W R * Z)) :
  Forall (fun c => always_fails (fst c)) cs ->
  forall (self : CircuitBreaker) (w : W),
    state self = CLOSED ->
    failure_count self + Z.of_nat (length cs) < failure_threshold self ->
    let self' := fst (fst (calls cs self w)) in
    state self' = CLOSED
    /\ failure_count self' = failure_count self + Z.of_nat (length cs)
    /\ failure_threshold self' = failure_threshold self.
Proof.
  induction 1 as [|[func now] rest Hf Hrest IH]; intros self w Hc Hlt.
  - cbn. repeat split; (assumption || lia).
  - cbn [calls]. cbn [fst] in Hf. cbn [length] in Hlt.
    pose proof (call_failing_step func now self w Hf) as Hstep.
    destruct (call func now self w) as [[self1 w1] o].
    cbn [fst] in Hstep. destruct Hstep as (Ht1 & Hclosed & _).
    destruct (Hclosed Hc) as (Hcount & [[_ Hle] | [Hc1 _]]); [lia|].
    specialize (IH self1 w1 Hc1 ltac:(lia)).
    destruct (calls rest self1 w1) as [[self2 w2] os]. cbn [fst] in IH |- *.
    destruct IH as (? & ? & ?). cbn [length]. repeat split; lia || congruence.
Qed.

(** A success on a closed breaker clears the failure count. *)
Lemma call_success_closed (func : Func W R) (now : Z)
      (self : CircuitBreaker) (w : W) :
  always_succeeds func ->
  state self = CLOSED ->
  let self' := fst (fst (call func now self w)) in
  state self' = CLOSED
  /\ failure_count self' = 0
  /\ failure_threshold self' = failure_threshold self.
Proof.
  intros Hs Hc. cbv zeta. unfold call.
  destruct (Hs w) as (w1 & r & Hw).
  destruct (decide (state self = OPEN)); [congruence|].
  rewrite Hw. cbn [fst]. unfold record_success.
  destruct (decide (state self = HALF_OPEN)); [congruence|].
  repeat split. exact Hc.
Qed.

(** Successful calls that stay below the success threshold go through a
    half-open breaker one after the other. *)
Lemma calls_half_open_below_threshold (cs : list (Func W R * Z)) :
  Forall (fun c => always_succeeds (fst c)) cs ->
  forall (self : CircuitBreaker) (w : W),
    state self = HALF_OPEN ->
    success_count self + Z.of_nat (length cs) < success_threshold self ->
    let '(self', _, os) := calls cs self w in
    state self' = HALF_OPEN
    /\ success_count self' = success_count self + Z.of_nat (length cs)
    /\ length os = length cs
    /\ Forall is_returned os.
Proof.
  induction 1 as [|[func now] rest Hs Hrest IH]; intros self w Hh Hlt.
  - cbn. repeat split; [assumption | lia | constructor].
  - cbn [calls]. cbn [fst] in Hs. cbn [length] in Hlt.
    assert (Hcall :
              exists w1 r,
                call func now self w = (record_success self, w1, Returned r)).
    { unfold call. destruct (Hs w) as (w1 & r & Hw).
      destruct (decide (state self = OPEN)); [congruence|].
      rewrite Hw. now exists w1, r. }
    destruct Hcall as (w1 & r & ->).
    destruct (proj2 (record_success_half_open self Hh) ltac:(lia))
      as (Hh1 & Hc1 & _).
    destruct (record_success_thresholds self) as (_ & Ht1).
    specialize (IH (record_success self) w1 Hh1 ltac:(lia)).
    destruct (calls rest (record_success self) w1) as [[self2 w2] os].
    destruct IH as (? & ? & ? & ?). cbn [length].
    repeat split; [assumption | lia | lia | constructor; [exact I | assumption]].
Qed.

End BreakerRunFacts.


(** X11.  Failures count only in a row: on a closed breaker, failures
    that stay below the threshold, then one success, then again failures
    below the threshold leave the breaker closed, with only the failures
    after the success counted, however many failed in total.  A failure
    is a call whose function raises an exception derived from
    [Exception], the ones the handler of [call] records. *)
Theorem closed_breaker_counts_consecutive_failures :
  forall (P : Breaker.ResetPolicy) (W R : Type)
         (self : Breaker.CircuitBreaker) (w : W)
         (before after : list (Breaker.Func W R * Z))
         (ok : Breaker.Func W R) (now : Z),
    Breaker.state self = Breaker.CLOSED ->
    Forall (fun c => Breaker.always_fails (fst c)) before ->
    Forall (fun c => Breaker.always_fails (fst c)) after ->
    Breaker.always_succeeds ok ->
    Breaker.failure_count self + Z.of_nat (length before)
    < Breaker.failure_threshold self ->
    Z.of_nat (length after) < Breaker.failure_threshold self ->
    let self' :=
      fst (fst (Breaker.calls (before ++ (ok, now) :: after) self w)) in
    Breaker.state self' = Breaker.CLOSED
    /\ Breaker.failure_count self' = Z.of_nat (length after).
Proof.
  intros P W R self w before after ok now Hc Hb Ha Hok Hlt1 Hlt2. cbv zeta.
  rewrite calls_app.
  pose proof (calls_failing_below_threshold before Hb self w Hc Hlt1) as H1.
  destruct (Breaker.calls before self w) as [[self1 w1] os1].
  cbn [fst] in H1. destruct H1 as (Hc1 & _ & Ht1).
  cbn [Breaker.calls].
  pose proof (call_success_closed ok now self1 w1 Hok Hc1) as H2.
  destruct (Breaker.call ok now self1 w1) as [[self2 w2] o].
  cbn [fst] in H2. destruct H2 as (Hc2 & Hz & Ht2).
  pose proof (calls_failing_below_threshold after Ha self2 w2 Hc2
                                            ltac:(lia)) as H3.
  destruct (Breaker.calls after self2 w2) as [[self3 w3] os3].
  cbn [fst] in H3 |- *. destruct H3 as (Hc3 & Hcount & _).
  split; [exact Hc3 | lia].
Qed.

Lemma closed_breaker_counts_consecutive_failures_witness :
  Breaker.state
    (fst (fst (Breaker.calls
                 ([ (Breaker.rpc_down, 0); (Breaker.rpc_down, 1);
                    (Breaker.rpc_down, 2); (Breaker.rpc_down, 3) ]
                  ++ (Breaker.rpc_up, 4)
                  :: [ (Breaker.rpc_down, 5); (Breaker.rpc_down, 6);
                       (Breaker.rpc_down, 7); (Breaker.rpc_down, 8) ])
                 (Breaker.init "alchemy" None None None) 0%nat)))
  = Breaker.CLOSED
  /\ Breaker.failure_count
       (fst (fst (Breaker.calls
                    ([ (Breaker.rpc_down, 0); (Breaker.rpc_down, 1);
                       (Breaker.rpc_down, 2); (Breaker.rpc_down, 3) ]
                     ++ (Breaker.rpc_up, 4)
                     :: [ (Breaker.rpc_down, 5); (Breaker.rpc_down, 6);
                          (Breaker.rpc_down, 7); (Breaker.rpc_down, 8) ])
                    (Breaker.init "alchemy" None None None) 0%nat)))
     = 4.
Proof.
  apply (closed_breaker_counts_consecutive_failures
           Breaker.timeout_policy nat string
           (Breaker.init "alchemy" None None None) 0%nat
           [ (Breaker.rpc_down, 0); (Breaker.rpc_down, 1);
             (Breaker.rpc_down, 2); (Breaker.rpc_down, 3) ]
           [ (Breaker.rpc_down, 5); (Breaker.rpc_down, 6);
             (Breaker.rpc_down, 7); (Breaker.rpc_down, 8) ]
           Breaker.rpc_up 4).
  - reflexivity.
  - repeat constructor; intros w; exists (S w), "connection refused";
      reflexivity.
  - repeat constructor; intros w; exists (S w), "connection refused";
      reflexivity.
  - intros w. exists (S w), "0x2a". reflexivity.
  - cbn. lia.
  - cbn. lia.
Defined.

(** X12.  Only a failing call opens a breaker: calls that all succeed
    leave a closed breaker closed, whatever its thresholds and counters
    are, zero and negative thresholds included. *)
Theorem successful_calls_keep_breaker_closed :
  forall (P : Breaker.ResetPolicy) (W R : Type)
         (self : Breaker.CircuitBreaker) (w : W)
         (cs : list (Breaker.Func W R * Z)),
    Breaker.state self = Breaker.CLOSED ->
    Forall (fun c => Breaker.always_succeeds (fst c)) cs ->
    Breaker.state (fst (fst (Breaker.calls cs self w))) = Breaker.CLOSED.
Proof.
  intros P W R self w cs Hc Hs.
  destruct (calls_succeeding cs Hs self w (or_intror Hc))
    as (_ & [Hdone | (Hh & _)]); [exact Hdone | congruence].
Qed.

Lemma successful_calls_keep_breaker_closed_witness :
  Breaker.state
    (fst (fst (Breaker.calls
                 [ (Breaker.rpc_up, 0); (Breaker.rpc_up, 1) ]
                 (Breaker.init "alchemy" (Some 0) (Some 0) None) 0%nat)))
  = Breaker.CLOSED.
Proof.
  apply (successful_calls_keep_breaker_closed
           Breaker.timeout_policy nat string
           (Breaker.init "alchemy" (Some 0) (Some 0) None) 0%nat).
  - reflexivity.
  - repeat constructor; intros w; exists (S w), "0x2a"; reflexivity.
Defined.

(** X13.  A half-open breaker does not limit the probes: as long as the
    success threshold is not reached, every call goes through to the
    wrapped function and returns its result, and the breaker stays
    half-open with one more success counted per call. *)
Theorem half_open_breaker_lets_every_call_through :
  forall (P : Breaker.ResetPolicy) (W R : Type)
         (self : Breaker.CircuitBreaker) (w : W)
         (cs : list (Breaker.Func W R * Z)),
    Breaker.state self = Breaker.HALF_OPEN ->
    Forall (fun c => Breaker.always_succeeds (fst c)) cs ->
    Breaker.success_count self + Z.of_nat (length cs)
    < Breaker.success_threshold self ->
    let self' := fst (fst (Breaker.calls cs self w)) in
    let outcomes := snd (Breaker.calls cs self w) in
    Breaker.state self' = Breaker.HALF_OPEN
    /\ Breaker.success_count self'
       = Breaker.success_count self + Z.of_nat (length cs)
    /\ length outcomes = length cs
    /\ Forall BreakerRuns.is_returned outcomes.
Proof.
  intros P W R self w cs Hh Hs Hlt. cbv zeta.
  pose proof (calls_half_open_below_threshold cs Hs self w Hh Hlt) as H.
  destruct (Breaker.calls cs self w) as [[self' w'] os]. exact H.
Qed.

Lemma half_open_breaker_lets_every_call_through_witness :
  Forall BreakerRuns.is_returned
         (snd (Breaker.calls
                 [ (Breaker.rpc_up, 70); (Breaker.rpc_up, 71) ]
                 (Breaker.set_state Breaker.HALF_OPEN
                    (Breaker.init "alchemy" None None None))
                 0%nat)).
Proof.
  apply (half_open_breaker_lets_every_call_through
           Breaker.timeout_policy nat string
           (Breaker.set_state Breaker.HALF_OPEN
              (Breaker.init "alchemy" None None None))
           0%nat
           [ (Breaker.rpc_up, 70); (Breaker.rpc_up, 71) ]).
  - reflexivity.
  - repeat constructor; intros w; exists (S w), "0x2a"; reflexivity.
  - cbn. lia.
Defined.

Section RiskRunFacts.
Import Risk RiskRuns.
#[local] Open Scope Q_scope.

Lemma weight_of_nonneg (name : string) : 0 <= weight_of name.
Proof.
  unfold weight_of. destruct (weights !! name) as [v|] eqn:E; cbn.
  - unfold weights in E. apply elem_of_list_to_map_2 in E.
    repeat (apply elem_of_cons in E as [E|E];
            [injection E as _ ->; discriminate|]).
    now apply not_elem_of_nil in E.
  - discriminate.
Qed.

Lemma fold_left_Qplus_le (xs ys : list Q) (a b : Q) :
  Forall2 Qle xs ys -> a <= b ->
  fold_left Qplus xs a <= fold_left Qplus ys b.
Proof.
  intros H. revert a b. induction H as [|x y xs ys Hxy _ IH]; intros a b Hab.
  - exact Hab.
  - cbn [fold_left]. apply IH. lra.
Qed.

Lemma fold_left_Qplus_nonneg (xs : list Q) (a : Q) :
  Forall (fun x => 0 <= x) xs -> 0 <= a -> 0 <= fold_left Qplus xs a.
Proof.
  intros H. revert a. induction H as [|x xs Hx _ IH]; intros a Ha.
  - exact Ha.
  - cbn [fold_left]. apply IH. lra.
Qed.

End RiskRunFacts.

(** X14.  When each of the six checks that [__init__] installs reports
    under its own key of [weights], with a risk contribution between 0 and
    1, the assessment that [evaluate] returns has a risk score between 0
    and 1. *)
Theorem evaluate_risk_score_in_unit_interval :
  forall (Action ExecutionContext : Type)
         (C : @Risk.Checks Action ExecutionContext)
         (cfg : Risk.RiskConfig) (action : Action)
         (context : ExecutionContext),
    RiskRuns.checks_report action context ->
    (0 <= Risk.risk_score (Risk.evaluate (Risk.init cfg) action context)
     /\ Risk.risk_score (Risk.evaluate (Risk.init cfg) action context) <= 1)%Q.
Proof.
  intros Action ExecutionContext C cfg action context
         ((N1 & L1 & U1) & (N2 & L2 & U2) & (N3 & L3 & U3)
          & (N4 & L4 & U4) & (N5 & L5 & U5) & (N6 & L6 & U6)).
  unfold Risk.evaluate, Risk.init, Risk.gather.
  cbn [Risk.risk_score Risk.checks map].
  unfold Risk.calculate_risk_score. cbn [map fold_left].
  rewrite N1, N2, N3, N4, N5, N6.
  rewrite weight_of_position_limit, weight_of_daily_loss,
    weight_of_concentration, weight_of_slippage, weight_of_gas_cost,
    weight_of_contract_risk.
  split; lra.
Qed.

Lemma evaluate_risk_score_in_unit_interval_witness :
  (0 <= Risk.risk_score
          (Risk.evaluate (Risk.init Risk.default_config) tt tt)
   /\ Risk.risk_score (Risk.evaluate (Risk.init Risk.default_config) tt tt)
      <= 1)%Q.
Proof.
  apply (evaluate_risk_score_in_unit_interval
           unit unit Risk.sample_checks Risk.default_config tt tt).
  repeat split; discriminate.
Defined.

(** X15.  No weight is negative, the default included.  So the score is
    never negative on contributions that are not negative, whatever the
    names of the results; and raising contributions, result by result,
    never lowers the score. *)
Theorem calculate_risk_score_is_monotone :
  (forall results : list Risk.CheckResult,
      Forall (fun r => (0 <= Risk.risk_contribution r)%Q) results ->
      (0 <= Risk.calculate_risk_score results)%Q)
  /\ (forall results1 results2 : list Risk.CheckResult,
         Forall2 RiskRuns.no_less_risky results1 results2 ->
         (Risk.calculate_risk_score results1
          <= Risk.calculate_risk_score results2)%Q).
Proof.
  split.
  - intros results Hpos. unfold Risk.calculate_risk_score.
    apply fold_left_Qplus_nonneg; [|discriminate].
    induction Hpos as [|r rs Hr _ IH]; cbn [map]; constructor; [|exact IH].
    pose proof (weight_of_nonneg (Risk.check_name r)). nra.
  - intros results1 results2 H. unfold Risk.calculate_risk_score.
    apply fold_left_Qplus_le; [|discriminate].
    induction H as [|r1 r2 rs1 rs2 (Hn & Hc) _ IH]; cbn [map];
      constructor; [|exact IH].
    rewrite Hn. pose proof (weight_of_nonneg (Risk.check_name r2)). nra.
Qed.

Lemma calculate_risk_score_is_monotone_witness :
  (Risk.calculate_risk_score
     [ Risk.sample_result "slippage" true (1 # 4) ]
   <= Risk.calculate_risk_score
        [ Risk.sample_result "slippage" false (3 # 4) ])%Q.
Proof.
  apply (proj2 calculate_risk_score_is_monotone).
  repeat constructor. discriminate.
Defined.

Section EventFacts.
Import Events.
Context {Handler : Type}.

Lemma get_append_at (d : @Handlers Handler) (k t : EventType) (h : Handler) :
  get (append_at d k h) t =
    if decide (t = k) then (fun v => v ++ [h]) <$> get d t else get d t.
Proof.
  induction d as [|[k' v] d IH]; cbn [append_at get].
  - now case_decide.
  - destruct (decide (k = k')) as [->|Hne]; cbn [get].
    + destruct (decide (t = k')) as [->|Hne']; [reflexivity|].
      reflexivity.
    + destruct (decide (t = k')) as [->|Hne'].
      * destruct (decide (k' = k)); [congruence | reflexivity].
      * exact IH.
Qed.

Lemma get_snoc (d : @Handlers Handler) (k t : EventType)
      (v : list Handler) :
  get (d ++ [(k, v)]) t =
    match get d t with
    | Some x => Some x
    | None => if decide (t = k) then Some v else None
    end.
Proof.
  induction d as [|[k' v'] d IH]; cbn [app get]; [reflexivity|].
  destruct (decide (t = k')); [reflexivity | exact IH].
Qed.

Lemma get_subscribe (bus : @EventBus Handler) (k t : EventType)
      (h : Handler) :
  get (handlers (subscribe k h bus)) t =
    if decide (t = k) then Some (default [] (get (handlers bus) t) ++ [h])
    else get (handlers bus) t.
Proof.
  unfold subscribe. cbn [handlers]. rewrite get_append_at.
  destruct (get (handlers bus) k) as [v|] eqn:Hk.
  - destruct (decide (t = k)) as [->|Hne]; [now rewrite Hk | reflexivity].
  - rewrite get_snoc.
    destruct (decide (t = k)) as [->|Hne]; [now rewrite Hk|].
    now destruct (get (handlers bus) t).
Qed.

Lemma subscribed_for_cons (t k : EventType) (h : Handler)
      (rest : list (EventType * Handler)) :
  subscribed_for t ((k, h) :: rest) =
    if decide (k = t) then h :: subscribed_for t rest
    else subscribed_for t rest.
Proof.
  unfold subscribed_for. cbn [omap list_omap fst snd].
  now destruct (decide (k = t)).
Qed.

Lemma get_subscribe_all (subs : list (EventType * Handler))
      (bus : @EventBus Handler) (t : EventType) :
  get (handlers (subscribe_all subs bus)) t =
    match get (handlers bus) t, subscribed_for t subs with
    | Some v, hs => Some (v ++ hs)
    | None, [] => None
    | None, hs => Some hs
    end.
Proof.
  revert bus. induction subs as [|[k h] rest IH]; intros bus.
  - cbn. destruct (get (handlers bus) t); [now rewrite app_nil_r | reflexivity].
  - unfold subscribe_all. cbn [fold_left fst snd].
    fold (subscribe_all rest (subscribe k h bus)).
    rewrite IH, get_subscribe, subscribed_for_cons.
    destruct (decide (t = k)) as [->|Hne].
    + destruct (decide (k = k)); [|congruence].
      destruct (get (handlers bus) k); cbn [default];
        [now rewrite <- app_assoc | reflexivity].
    + destruct (decide (k = t)); [congruence|]. reflexivity.
Qed.

Lemma redis_subscribe_all (subs : list (EventType * Handler))
      (bus : @EventBus Handler) :
  redis (subscribe_all subs bus) = redis bus.
Proof.
  revert bus. induction subs as [|[k h] rest IH]; intros bus; [reflexivity|].
  unfold subscribe_all. cbn [fold_left fst snd].
  fold (subscribe_all rest (subscribe k h bus)). now rewrite IH.
Qed.

Lemma stream_key_inj (t1 t2 : EventType) :
  stream_key t1 = stream_key t2 -> t1 = t2.
Proof. destruct t1, t2; intros Heq; (reflexivity || discriminate Heq). Qed.

End EventFacts.

(** X16.  After any subscriptions on a new bus, the handlers of an event
    type are exactly those subscribed for it, in the order of
    subscription, a handler subscribed twice being listed twice; an event
    type that nothing subscribed to has no entry; and subscribing never
    touches the Redis streams. *)
Theorem subscriptions_are_kept_in_order :
  forall (Handler : Type) (subs : list (Events.EventType * Handler))
         (redis_client : gmap string (list Events.Entry))
         (t : Events.EventType),
    Events.get
      (Events.handlers (Events.subscribe_all subs (Events.init redis_client)))
      t
    = match Events.subscribed_for t subs with
      | [] => None
      | hs => Some hs
      end
    /\ Events.redis (Events.subscribe_all subs (Events.init redis_client))
       = redis_client.
Proof.
  intros Handler subs redis_client t. split.
  - rewrite get_subscribe_all. reflexivity.
  - apply redis_subscribe_all.
Qed.

(** X17.  Events of different types never share a stream: the stream
    names of the nine event types are pairwise distinct, and [publish]
    appends one entry to the end of the stream of the event's type and
    leaves the stream of every other type, and the handlers, as they
    were. *)
Theorem publish_reaches_only_its_stream :
  forall (Handler : Type) (event : Events.Event)
         (bus : @Events.EventBus Handler),
    (forall t1 t2, Events.stream_key t1 = Events.stream_key t2 -> t1 = t2)
    /\ Events.redis (Events.publish event bus)
         !! Events.stream_key (Events.type event)
       = Some (default [] (Events.redis bus
                             !! Events.stream_key (Events.type event))
               ++ [ {| Events.payload := Events.json event;
                       Events.timestamp := Events.timestamp_iso event |} ])
    /\ (forall t,
           t <> Events.type event ->
           Events.redis (Events.publish event bus) !! Events.stream_key t
           = Events.redis bus !! Events.stream_key t)
    /\ Events.handlers (Events.publish event bus) = Events.handlers bus.
Proof.
  intros Handler event bus. split; [exact stream_key_inj|].
  unfold Events.publish, Events.xadd. cbn [Events.redis Events.handlers].
  split; [apply lookup_insert_eq|]. split; [|reflexivity].
  intros t Hne. apply lookup_insert_ne.
  intros Heq. apply Hne. symmetry. now apply stream_key_inj.
Qed.

Section NotificationFacts.
Import Notifications.
Context {W : Type} `{!Collaborators W}.

Lemma getitem_known (name : string) :
  In name channel_names -> is_Some (getitem channels name).
Proof.
  cbn. intros [<- | [<- | [<- | [<- | []]]]]; cbn; eauto.
Qed.

Lemma getitem_unknown (name : string) :
  ~ In name channel_names -> getitem channels name = None.
Proof.
  cbn. intros Hn. unfold channels. cbn [getitem].
  repeat match goal with
         | |- context [String.eqb name ?k] =>
             destruct (String.eqb_spec name k); [subst; tauto|]
         end.
  reflexivity.
Qed.

Lemma deliver_known (names : list string) (n : Notification) (w : W) :
  notifiers_return ->
  Forall (fun name => In name channel_names) names ->
  forall (rest : list string),
    let '(w1, sent1, o1) := deliver (names ++ rest) n w in
    exists w0,
      let '(w2, sent2, o2) := deliver rest n w0 in
      w1 = w2 /\ sent1 = names ++ sent2 /\ o1 = o2.
Proof.
  intros Hret Hknown rest. revert w.
  induction Hknown as [|name names Hname _ IH]; intros w.
  - cbn [app]. destruct (deliver rest n w) as [[w1 sent1] o1] eqn:E.
    exists w. rewrite E. repeat split.
  - cbn [app deliver].
    destruct (getitem_known name Hname) as [channel Hc]. rewrite Hc.
    specialize (Hret name channel n w Hc).
    destruct (channel n w) as [w1 o]. cbn in Hret. subst o.
    specialize (IH w1).
    destruct (deliver (names ++ rest) n w1) as [[w2 sent2] o2].
    destruct IH as (w0 & IH). exists w0.
    destruct (deliver rest n w0) as [[w3 sent3] o3].
    destruct IH as (-> & -> & ->). repeat split.
Qed.

End NotificationFacts.

(** X18.  [NotificationService.send] delivers channel by channel, in the
    order of the user's preferences.  A channel name that is not one of
    the four keys of [self.channels] raises [KeyError] at its turn: the
    channels before it have been notified, and the channels after it are
    not, known or not.  When every name is known, every channel is
    notified, as often as it is listed. *)
Theorem send_stops_at_unknown_channel :
  forall (W : Type) (C : Notifications.Collaborators W)
         (user_id : string) (n : Notifications.Notification) (w w1 : W)
         (known rest : list string) (bad : string),
    Notifications.notifiers_return ->
    Forall (fun name => In name Notifications.channel_names) known ->
    ~ In bad Notifications.channel_names ->
    (Notifications.get_user_preferences user_id w
     = (w1, inl (known ++ bad :: rest)) ->
     snd (fst (Notifications.send user_id n w)) = known
     /\ snd (Notifications.send user_id n w)
        = Notifications.Raised (Notifications.KeyError bad))
    /\ (Notifications.get_user_preferences user_id w = (w1, inl known) ->
        snd (fst (Notifications.send user_id n w)) = known
        /\ snd (Notifications.send user_id n w) = Notifications.Returned).
Proof.
  intros W C user_id n w w1 known rest bad Hret Hknown Hbad. split.
  - intros Hpref. unfold Notifications.send. rewrite Hpref.
    pose proof (deliver_known known n w1 Hret Hknown (bad :: rest)) as H.
    destruct (Notifications.deliver (known ++ bad :: rest) n w1)
      as [[w2 sent] o].
    destruct H as (w0 & H). cbn [Notifications.deliver] in H.
    rewrite (getitem_unknown bad Hbad) in H.
    destruct H as (_ & -> & ->). cbn [fst snd].
    now rewrite app_nil_r.
  - intros Hpref. unfold Notifications.send. rewrite Hpref.
    pose proof (deliver_known known n w1 Hret Hknown []) as H.
    rewrite app_nil_r in H.
    destruct (Notifications.deliver known n w1) as [[w2 sent] o].
    destruct H as (w0 & H). cbn [Notifications.deliver] in H.
    destruct H as (_ & -> & ->). cbn [fst snd].
    now rewrite app_nil_r.
Qed.

Lemma send_stops_at_unknown_channel_witness :
  snd (fst (Notifications.send "user-1" Notifications.sample_notification
                               ([] : list string)))
  = ["email"]
  /\ snd (Notifications.send "user-1" Notifications.sample_notification
                             ([] : list string))
     = Notifications.Raised (Notifications.KeyError "sms").
Proof.
  apply (proj1 (send_stops_at_unknown_channel
                  (list string) Notifications.sample_collaborators
                  "user-1" Notifications.sample_notification [] []
                  ["email"] ["discord"] "sms"
                  ltac:(intros name channel n w Hc;
                        cbn in Hc;
                        repeat match type of Hc with
                               | context [String.eqb name ?k] =>
                                   destruct (String.eqb name k)
                               end;
                        try discriminate Hc;
                        injection Hc as <-; reflexivity)
                  ltac:(repeat constructor; cbn; tauto)
                  ltac:(cbn; intros H;
                        repeat (destruct H as [H|H]; [discriminate H|]);
                        exact H))).
  reflexivity.
Defined.

(** X19.  [score_news_for_portfolio] never fails on a dict lookup, since
    [scores] and [weights] have the same six keys; its weights add up to
    1; and when the six factors lie between 0 and 1, so does the final
    score, with the factors handed back as the breakdown. *)
Theorem relevance_score_in_unit_interval :
  forall (News Portfolio : Type) (F : Relevance.Factors News Portfolio)
         (news : News) (portfolio : Portfolio),
    is_Some (Relevance.score_news_for_portfolio news portfolio)
    /\ (fold_left Qplus (map snd Relevance.weights) 0 == 1)%Q
    /\ (Relevance.factors_normalized news portfolio ->
        exists r,
          Relevance.score_news_for_portfolio news portfolio = Some r
          /\ (0 <= Relevance.score r /\ Relevance.score r <= 1)%Q
          /\ Relevance.breakdown r = Relevance.scores news portfolio).
Proof.
  intros News Portfolio F news portfolio.
  split; [|split].
  - unfold Relevance.score_news_for_portfolio. cbn. eauto.
  - vm_compute. reflexivity.
  - intros Hn. unfold Relevance.factors_normalized, Relevance.scores in Hn.
    repeat match goal with
           | H : Forall _ (_ :: _) |- _ =>
               apply Forall_cons in H as [[? ?] H]
           end.
    cbn [snd] in *.
    eexists. split; [unfold Relevance.score_news_for_portfolio; cbn;
                     reflexivity|].
    cbn [Relevance.score Relevance.breakdown].
    split; [split; lra | reflexivity].
Qed.

Lemma relevance_score_in_unit_interval_witness :
  exists r,
    @Relevance.score_news_for_portfolio unit unit Relevance.top_factors tt tt
    = Some r
    /\ (0 <= Relevance.score r /\ Relevance.score r <= 1)%Q
    /\ Relevance.breakdown r
       = @Relevance.scores unit unit Relevance.top_factors tt tt.
Proof.
  apply (proj2 (proj2 (relevance_score_in_unit_interval
                         unit unit Relevance.top_factors tt tt))).
  repeat constructor; discriminate.
Defined.

Section SizingFacts.
Import Sizing.
#[local] Open Scope Q_scope.

Lemma share_in_unit_interval (part whole : Q) :
  0 < whole -> 0 <= part -> part <= whole ->
  0 <= part / whole /\ part / whole <= 1.
Proof.
  intros Hw Hp Hle. split.
  - apply Qle_shift_div_l; [exact Hw | lra].
  - apply Qle_shift_div_r; [exact Hw | lra].
Qed.

End SizingFacts.

(** X20.  A copy is never sized above the follower's portfolio.  With
    [size_value] between 0 and 100, percentage sizing gives an amount
    between 0 and the follower's total value, whatever the leader traded.
    Proportional sizing raises a division error when the leader's
    portfolio is worth zero; otherwise, for a leader trade within the
    leader's portfolio and a multiplier between 0 and 1, it gives an
    amount between 0 and the follower's total value. *)
Theorem copy_size_within_follower_portfolio :
  forall (L : Sizing.LeaderData) (leader_trade : Sizing.TradeEvent)
         (follower : Sizing.Portfolio) (config : Sizing.CopyConfig),
    (0 <= Sizing.total_value_usd follower)%Q ->
    ((0 <= Sizing.size_value config /\ Sizing.size_value config <= 100)%Q ->
     (0 <= Sizing.PercentageSizing_calculate_size leader_trade follower config
      /\ Sizing.PercentageSizing_calculate_size leader_trade follower config
         <= Sizing.total_value_usd follower)%Q)
    /\ ((Sizing.get_leader_portfolio_value (Sizing.address leader_trade) == 0)%Q
        -> Sizing.ProportionalSizing_calculate_size leader_trade follower config
           = None)
    /\ ((0 < Sizing.get_leader_portfolio_value (Sizing.address leader_trade))%Q
        -> (0 <= Sizing.value_usd leader_trade
            /\ Sizing.value_usd leader_trade
               <= Sizing.get_leader_portfolio_value
                    (Sizing.address leader_trade))%Q
        -> (0 <= Sizing.size_value config /\ Sizing.size_value config <= 1)%Q
        -> exists size,
             Sizing.ProportionalSizing_calculate_size
               leader_trade follower config = Some size
             /\ (0 <= size /\ size <= Sizing.total_value_usd follower)%Q).
Proof.
  intros L leader_trade follower config Hf. split; [|split].
  - intros [Hlo Hhi]. unfold Sizing.PercentageSizing_calculate_size. cbv zeta.
    destruct (share_in_unit_interval (Sizing.size_value config) 100
                                     ltac:(reflexivity) Hlo Hhi) as [H0 H1].
    split; nra.
  - intros Hz. unfold Sizing.ProportionalSizing_calculate_size. cbv zeta.
    apply Qeq_bool_iff in Hz. now rewrite Hz.
  - intros Hpos [Hlo Hhi] [Mlo Mhi].
    unfold Sizing.ProportionalSizing_calculate_size. cbv zeta.
    destruct (Qeq_bool _ 0) eqn:Hz.
    + apply Qeq_bool_iff in Hz. lra.
    + eexists. split; [reflexivity|].
      destruct (share_in_unit_interval _ _ Hpos Hlo Hhi) as [H0 H1].
      set (pct := (Sizing.value_usd leader_trade
                   / Sizing.get_leader_portfolio_value
                       (Sizing.address leader_trade))%Q) in *.
      clearbody pct.
      assert (0 <= Sizing.total_value_usd follower * pct)%Q by nra.
      assert (Sizing.total_value_usd follower * pct
              <= Sizing.total_value_usd follower)%Q by nra.
      split; nra.
Qed.

Lemma copy_size_within_follower_portfolio_witness :
  exists size,
    @Sizing.ProportionalSizing_calculate_size
      Sizing.sample_leader_data Sizing.sample_trade Sizing.sample_follower
      (Sizing.sample_config "proportional" 1)
    = Some size
    /\ (0 <= size /\ size <= Sizing.total_value_usd Sizing.sample_follower)%Q.
Proof.
  apply (proj2 (proj2 (copy_size_within_follower_portfolio
                         Sizing.sample_leader_data Sizing.sample_trade
                         Sizing.sample_follower
                         (Sizing.sample_config "proportional" 1)
                         ltac:(discriminate)))).
  - reflexivity.
  - split; discriminate.
  - split; discriminate.
Defined.

Section WebhookFacts.
Import Webhooks.
Context {W : Type} `{!Methods W}.

Lemma handle_each_filter (todo : list Activity) (w : W) :
  processing_returns ->
  snd (fst (handle_each todo w))
  = List.filter (fun a => is_watched (fromAddress a)
                          || is_watched (toAddress a)) todo
  /\ snd (handle_each todo w) = Returned.
Proof.
  intros Hret. revert w. induction todo as [|a rest IH]; intros w.
  - split; reflexivity.
  - cbn [handle_each List.filter].
    destruct (is_watched (fromAddress a) || is_watched (toAddress a)).
    + specialize (Hret a w).
      destruct (process_activity a w) as [w1 o]. cbn in Hret. subst o.
      specialize (IH w1).
      destruct (handle_each rest w1) as [[w2 done] o2].
      cbn [fst snd] in *. destruct IH as (-> & ->). split; reflexivity.
    + apply IH.
Qed.

End WebhookFacts.

(** X21.  The webhook handler passes to [process_activity] exactly the
    activities that a watched wallet sent or received, in the order of
    the payload and each of them once, also when both ends are watched;
    a payload without the event key or without the activity key is
    handled without processing anything. *)
Theorem webhook_processes_watched_activity_once :
  forall (W : Type) (M : Webhooks.Methods W) (payload : Webhooks.Payload)
         (w : W),
    Webhooks.processing_returns ->
    snd (fst (Webhooks.handle_address_activity payload w))
    = List.filter
        (fun a => Webhooks.is_watched (Webhooks.fromAddress a)
                  || Webhooks.is_watched (Webhooks.toAddress a))
        (Webhooks.activities payload)
    /\ snd (Webhooks.handle_address_activity payload w) = Webhooks.Returned
    /\ (Webhooks.event payload = None
        \/ Webhooks.event payload = Some {| Webhooks.activity := None |} ->
        snd (fst (Webhooks.handle_address_activity payload w)) = []).
Proof.
  intros W M payload w Hret.
  destruct (handle_each_filter (Webhooks.activities payload) w Hret)
    as (Hdone & Hout).
  split; [exact Hdone|]. split; [exact Hout|].
  intros Hmissing. unfold Webhooks.handle_address_activity in *.
  rewrite Hdone. unfold Webhooks.activities.
  destruct Hmissing as [-> | ->]; reflexivity.
Qed.

Lemma webhook_processes_watched_activity_once_witness :
  snd (fst (@Webhooks.handle_address_activity
              nat Webhooks.sample_methods
              {| Webhooks.event :=
                   Some {| Webhooks.activity :=
                             Some [ {| Webhooks.hash := Some "0x01";
                                       Webhooks.fromAddress := Some "0xwatched";
                                       Webhooks.toAddress := Some "0xwatched" |};
                                    {| Webhooks.hash := Some "0x02";
                                       Webhooks.fromAddress := Some "0xother";
                                       Webhooks.toAddress := None |} ] |} |}
              0%nat))
  = [ {| Webhooks.hash := Some "0x01";
         Webhooks.fromAddress := Some "0xwatched";
         Webhooks.toAddress := Some "0xwatched" |} ].
Proof.
  exact (proj1 (webhook_processes_watched_activity_once
                  nat Webhooks.sample_methods _ 0%nat
                  ltac:(intros a w; reflexivity))).
Defined.

Section SchedulerFacts.
Import Scheduler.

Lemma job_id_inj (a b : string) : job_id a = job_id b -> a = b.
Proof. unfold job_id. cbn. intros H. now repeat injection H as H. Qed.

End SchedulerFacts.

(** X22.  Scheduling keeps one job per strategy.  Scheduling a strategy
    again replaces its job, so that only the last cron expression counts,
    and leaves the jobs of every other strategy alone; the [conditions]
    argument has no effect on the job; and a cron expression that the
    trigger rejects raises and changes no job. *)
Theorem scheduling_keeps_one_job_per_strategy :
  forall (C : Scheduler.Cron) (strategy other : Scheduler.Strategy)
         (cron1 cron2 : string) (conds1 conds2 : option (list string))
         (jobs : gmap string Scheduler.Job),
    (is_Some (Scheduler.from_crontab cron2) ->
     fst (Scheduler.schedule_strategy
            strategy cron2 conds2
            (fst (Scheduler.schedule_strategy strategy cron1 conds1 jobs)))
     = fst (Scheduler.schedule_strategy strategy cron2 None jobs))
    /\ (Scheduler.id other <> Scheduler.id strategy ->
        fst (Scheduler.schedule_strategy strategy cron1 conds1 jobs)
          !! Scheduler.job_id (Scheduler.id other)
        = jobs !! Scheduler.job_id (Scheduler.id other))
    /\ (Scheduler.from_crontab cron1 = None ->
        Scheduler.schedule_strategy strategy cron1 conds1 jobs
        = (jobs, Scheduler.Raised "ValueError")).
Proof.
  intros C strategy other cron1 cron2 conds1 conds2 jobs.
  unfold Scheduler.schedule_strategy. split; [|split].
  - intros [t2 ->].
    destruct (Scheduler.from_crontab cron1) as [t1|]; cbn [fst];
      [apply insert_insert_eq | reflexivity].
  - intros Hne.
    destruct (Scheduler.from_crontab cron1) as [t1|]; cbn [fst];
      [|reflexivity].
    apply lookup_insert_ne. intros Heq. apply Hne. symmetry.
    now apply job_id_inj.
  - intros ->. reflexivity.
Qed.

Lemma scheduling_keeps_one_job_per_strategy_witness :
  fst (@Scheduler.schedule_strategy
         Scheduler.sample_cron
         {| Scheduler.id := "dca-1"; Scheduler.conditions := None |}
         "0 */4 * * *" (Some ["price < 2000"])
         (fst (@Scheduler.schedule_strategy
                 Scheduler.sample_cron
                 {| Scheduler.id := "dca-1"; Scheduler.conditions := None |}
                 "0 0 * * *" None ∅)))
  = fst (@Scheduler.schedule_strategy
           Scheduler.sample_cron
           {| Scheduler.id := "dca-1"; Scheduler.conditions := None |}
           "0 */4 * * *" None ∅).
Proof.
  apply (proj1 (scheduling_keeps_one_job_per_strategy
                  Scheduler.sample_cron
                  {| Scheduler.id := "dca-1"; Scheduler.conditions := None |}
                  {| Scheduler.id := "dca-2"; Scheduler.conditions := None |}
                  "0 0 * * *" "0 */4 * * *" None (Some ["price < 2000"]) ∅)).
  cbn. eauto.
Defined.

(** X23.  [execute_strategy] runs a strategy only past its conditions.
    When the loaded strategy has conditions and they are not met, the
    executor is never called and the method returns; when it has none
    ([None] or an empty list), the conditions are not evaluated and the
    executor is called once. *)
Theorem execute_strategy_respects_conditions :
  forall (W : Type) (M : Scheduler.Methods W) (strategy_id : string)
         (strategy : Scheduler.Strategy) (w w1 : W),
    Scheduler.load_strategy strategy_id w = (w1, inl strategy) ->
    (forall c cs w2,
        Scheduler.conditions strategy = Some (c :: cs) ->
        Scheduler.evaluate_conditions (c :: cs) w1 = (w2, inl false) ->
        Scheduler.execute_strategy strategy_id w
        = (w2,
           [Scheduler.CallLoadStrategy; Scheduler.CallEvaluateConditions],
           Scheduler.Returned))
    /\ (Scheduler.conditions strategy = None
        \/ Scheduler.conditions strategy = Some [] ->
        snd (fst (Scheduler.execute_strategy strategy_id w))
        = [Scheduler.CallLoadStrategy; Scheduler.CallExecute]).
Proof.
  intros W M strategy_id strategy w w1 Hload.
  unfold Scheduler.execute_strategy. rewrite Hload. split.
  - intros c cs w2 Hc Heval. unfold Scheduler.has_conditions.
    rewrite Hc, Heval. reflexivity.
  - intros Hnone. unfold Scheduler.has_conditions.
    destruct Hnone as [-> | ->];
      destruct (Scheduler.strategy_executor_execute strategy w1)
        as [w3 [msg|]]; reflexivity.
Qed.

Lemma execute_strategy_respects_conditions_witness :
  @Scheduler.execute_strategy nat Scheduler.sample_methods "dca-1" 0%nat
  = (0%nat,
     [Scheduler.CallLoadStrategy; Scheduler.CallEvaluateConditions],
     Scheduler.Returned).
Proof.
  apply (proj1 (execute_strategy_respects_conditions
                  nat Scheduler.sample_methods "dca-1"
                  {| Scheduler.id := "dca-1";
                     Scheduler.conditions := Some ["price < 2000"] |}
                  0%nat 0%nat eq_refl)
               "price < 2000" [] 0%nat eq_refl eq_refl).
Defined.

Section FeedFacts.
Import Feed.
#[local] Open Scope Q_scope.

Lemma comparator_rank (a b : Scored) : comparator a b == rank b - rank a.
Proof. unfold comparator, rank. ring. Qed.

Lemma insert_elem (x y : Scored) (l : list Scored) :
  In y (insert x l) <-> y = x \/ In y l.
Proof.
  induction l as [|z l IH]; cbn [insert].
  - cbn. intuition congruence.
  - destruct (Qlt_le_dec 0 (comparator x z)); cbn [In].
    + rewrite IH. intuition congruence.
    + intuition congruence.
Qed.

Lemma insert_length (x : Scored) (l : list Scored) :
  length (insert x l) = S (length l).
Proof.
  induction l as [|z l IH]; cbn [insert]; [reflexivity|].
  destruct (Qlt_le_dec 0 (comparator x z)); cbn [length]; [|reflexivity].
  now rewrite IH.
Qed.

Lemma sort_elem (y : Scored) (l : list Scored) : In y (sort l) <-> In y l.
Proof.
  induction l as [|x l IH]; cbn [sort foldr]; [reflexivity|].
  fold (sort l). rewrite insert_elem, IH. cbn. intuition congruence.
Qed.

Lemma sort_length (l : list Scored) : length (sort l) = length l.
Proof.
  induction l as [|x l IH]; cbn [sort foldr]; [reflexivity|].
  fold (sort l). now rewrite insert_length, IH.
Qed.

Lemma insert_sorted (x : Scored) (l : list Scored) :
  StronglySorted ranks_before l -> StronglySorted ranks_before (insert x l).
Proof.
  induction l as [|z l IH]; intros Hs; cbn [insert].
  - repeat constructor.
  - apply StronglySorted_inv in Hs as [Hs Hz].
    destruct (Qlt_le_dec 0 (comparator x z)) as [Hlt|Hle].
    + constructor; [now apply IH|].
      apply List.Forall_forall. intros y Hy. apply insert_elem in Hy.
      destruct Hy as [-> | Hy].
      * unfold ranks_before. rewrite comparator_rank in Hlt. lra.
      * rewrite List.Forall_forall in Hz. now apply Hz.
    + constructor; [now constructor|].
      rewrite comparator_rank in Hle.
      constructor; [unfold ranks_before; lra|].
      rewrite List.Forall_forall in Hz |- *. intros y Hy.
      specialize (Hz y Hy). unfold ranks_before in *. lra.
Qed.

Lemma sort_sorted (l : list Scored) : StronglySorted ranks_before (sort l).
Proof.
  induction l as [|x l IH]; cbn [sort foldr]; [constructor|].
  fold (sort l). now apply insert_sorted.
Qed.

Lemma sorted_app_inv (l1 l2 : list Scored) :
  StronglySorted ranks_before (l1 ++ l2) ->
  StronglySorted ranks_before l1 /\ StronglySorted ranks_before l2.
Proof.
  induction l1 as [|x l1 IH]; cbn [app]; intros Hs.
  - split; [constructor | exact Hs].
  - apply StronglySorted_inv in Hs as [Hs Hx].
    destruct (IH Hs) as [H1 H2]. split; [|exact H2].
    constructor; [exact H1|].
    rewrite List.Forall_forall in Hx |- *. intros y Hy.
    apply Hx. apply in_or_app. now left.
Qed.

Lemma slice_to_prefix {A : Type} (finish : Z) (l : list A) :
  exists rest, l = slice_to finish l ++ rest.
Proof.
  unfold slice_to. eexists. symmetry. apply take_drop.
Qed.

Lemma slice_to_length {A : Type} (finish : Z) (l : list A) :
  (length (slice_to finish l) <= length l)%nat
  /\ ((0 <= finish)%Z ->
      (length (slice_to finish l) <= Z.to_nat finish)%nat).
Proof.
  unfold slice_to. rewrite length_take. split; [lia|].
  intros Hpos. destruct (Z.ltb_spec finish 0); lia.
Qed.

Lemma filter_length_le {A : Type} (f : A -> bool) (l : list A) :
  (length (List.filter f l) <= length l)%nat.
Proof.
  induction l as [|x l IH]; cbn [List.filter]; [lia|].
  destruct (f x); cbn [length]; lia.
Qed.

End FeedFacts.

(** X24.  The feed is empty for a wallet without a portfolio profile.
    Otherwise it holds at most 100 items, at most 20 when no limit is
    given and at most [limit] for a limit that is not negative; each item
    comes from the 100 most recent news items, carries the relevance
    computed for the portfolio, and that relevance is at least
    [minRelevance], 0.3 standing in only when the argument is absent. *)
Theorem feed_is_filtered_and_capped :
  forall (Portfolio : Type) (S : Feed.Scoring Portfolio)
         (portfolio : option Portfolio) (newsItems : list Feed.NewsItem)
         (args : Feed.Args),
    let feed := Feed.getPersonalizedFeed portfolio newsItems args in
    (portfolio = None -> feed = [])
    /\ (length feed <= 100)%nat
    /\ (Feed.limit args = None -> (length feed <= 20)%nat)
    /\ (forall n, Feed.limit args = Some n -> 0 <= n ->
                  (length feed <= Z.to_nat n)%nat)
    /\ (forall x,
           In x feed ->
           exists pf,
             portfolio = Some pf
             /\ In (Feed.item x) (take 100 newsItems)
             /\ Feed.relevance x = Feed.computeRelevance (Feed.item x) pf
             /\ (default (3 # 10) (Feed.minRelevance args)
                 <= Feed.relevance x)%Q).
Proof.
  intros Portfolio S portfolio newsItems args. cbv zeta.
  unfold Feed.getPersonalizedFeed.
  destruct portfolio as [pf|];
    [|repeat split; cbn; try lia; intros; try lia; contradiction].
  set (scored := map _ (take 100 newsItems)).
  set (kept := List.filter _ scored).
  assert (Hkept : (length kept <= 100)%nat).
  { subst kept scored.
    etransitivity; [apply filter_length_le|].
    rewrite length_map, length_take. lia. }
  destruct (slice_to_length (default 20 (Feed.limit args)) (Feed.sort kept))
    as (Hlen & Hcap).
  rewrite sort_length in Hlen.
  split; [discriminate|]. split; [lia|].
  split.
  { intros Hl. rewrite Hl in Hcap. cbn [default] in Hcap.
    assert (H20 : (0 <= 20)%Z) by lia. specialize (Hcap H20).
    rewrite Hl. cbn [default]. lia. }
  split.
  { intros n Hl Hn. rewrite Hl in Hcap |- *. exact (Hcap Hn). }
  intros x Hx. exists pf. split; [reflexivity|].
  destruct (slice_to_prefix (default 20 (Feed.limit args)) (Feed.sort kept))
    as (rest & Hrest).
  assert (Hin : In x (Feed.sort kept)).
  { rewrite Hrest. apply in_or_app. now left. }
  apply (proj1 (sort_elem _ _)) in Hin. subst kept.
  apply List.filter_In in Hin as [Hin Hkeep].
  subst scored. apply in_map_iff in Hin as (news & <- & Hnews).
  cbn [Feed.item Feed.relevance] in *.
  split; [exact Hnews|]. split; [reflexivity|].
  destruct (Qlt_le_dec _ _); [discriminate | assumption].
Qed.

Lemma feed_is_filtered_and_capped_witness :
  (length (@Feed.getPersonalizedFeed
             unit Feed.sample_scoring (Some tt) Feed.sample_news
             {| Feed.limit := Some 1%Z; Feed.minRelevance := None |})
   <= Z.to_nat 1%Z)%nat.
Proof.
  apply (proj1 (proj2 (proj2 (proj2 (feed_is_filtered_and_capped
                                       unit Feed.sample_scoring (Some tt)
                                       Feed.sample_news
                                       {| Feed.limit := Some 1;
                                          Feed.minRelevance := None |}))))
               1 eq_refl).
  lia.
Defined.

(** X25.  The feed is ordered by [0.6 * relevance + 0.4 * publishedAt],
    highest first.  Since [publishedAt] is in milliseconds, recency
    decides the order: of two items with relevance between 0 and 1, the
    one listed later was published at most 1.5 ms after the one listed
    before it. *)
Theorem feed_is_ordered_by_recency :
  forall (Portfolio : Type) (S : Feed.Scoring Portfolio)
         (portfolio : option Portfolio) (newsItems : list Feed.NewsItem)
         (args : Feed.Args),
    let feed := Feed.getPersonalizedFeed portfolio newsItems args in
    StronglySorted Feed.ranks_before feed
    /\ (forall l1 a l2 b l3,
           feed = l1 ++ a :: l2 ++ b :: l3 ->
           (Feed.relevance a <= 1)%Q ->
           (0 <= Feed.relevance b)%Q ->
           (Feed.publishedAt (Feed.item b)
            <= Feed.publishedAt (Feed.item a) + (3 # 2))%Q).
Proof.
  intros Portfolio S portfolio newsItems args. cbv zeta.
  assert (Hsorted :
            StronglySorted Feed.ranks_before
                           (Feed.getPersonalizedFeed portfolio newsItems args)).
  { unfold Feed.getPersonalizedFeed. destruct portfolio as [pf|];
      [|constructor].
    match goal with
    | |- StronglySorted _ (Feed.slice_to ?n ?l) =>
        destruct (slice_to_prefix n l) as (rest & Hrest);
        pose proof (sort_sorted
                      (List.filter
                         (fun n0 =>
                            if Qlt_le_dec (Feed.relevance n0)
                                          (default (3 # 10)
                                                   (Feed.minRelevance args))
                            then false else true)
                         (map (fun news =>
                                 {| Feed.item := news;
                                    Feed.relevance :=
                                      Feed.computeRelevance news pf |})
                              (take 100 newsItems)))) as Hs
    end.
    rewrite Hrest in Hs. now apply sorted_app_inv in Hs as [Hs _]. }
  split; [exact Hsorted|].
  intros l1 a l2 b l3 Hfeed Ha Hb. rewrite Hfeed in Hsorted.
  apply sorted_app_inv in Hsorted as [_ Hsorted].
  apply StronglySorted_inv in Hsorted as [_ Hall].
  rewrite List.Forall_forall in Hall.
  assert (Hrank : Feed.ranks_before a b).
  { apply Hall. apply in_or_app. right. now left. }
  unfold Feed.ranks_before, Feed.rank in Hrank. lra.
Qed.

Lemma feed_is_ordered_by_recency_witness :
  (Feed.publishedAt {| Feed.news_id := "eth-upgrade";
                       Feed.publishedAt := 1700000000000 |}
   <= Feed.publishedAt {| Feed.news_id := "meme-of-the-day";
                          Feed.publishedAt := 1700000000002 |} + (3 # 2))%Q.
Proof.
  apply (proj2 (feed_is_ordered_by_recency
                  unit Feed.sample_scoring (Some tt) Feed.sample_news
                  {| Feed.limit := None; Feed.minRelevance := None |})
               []
               {| Feed.item := {| Feed.news_id := "meme-of-the-day";
                                  Feed.publishedAt := 1700000000002 |};
                  Feed.relevance := 4 # 10 |}
               []
               {| Feed.item := {| Feed.news_id := "eth-upgrade";
                                  Feed.publishedAt := 1700000000000 |};
                  Feed.relevance := 9 # 10 |}
               []).
  - reflexivity.
  - discriminate.
  - discriminate.
Defined.

Section ConvexStrategyFacts.
Import ConvexStrategies.

Lemma same_identity_refl (d : StrategyDoc) : same_identity d d.
Proof. repeat split. Qed.

Lemma kept_in_refl (db : Table) : kept_in db db.
Proof.
  intros i d Hd. exists d. split; [exact Hd|].
  split; [apply same_identity_refl | lia].
Qed.

Lemma kept_in_trans (db1 db2 db3 : Table) :
  kept_in db1 db2 -> kept_in db2 db3 -> kept_in db1 db3.
Proof.
  intros H12 H23 i d Hd.
  destruct (H12 i d Hd) as (d2 & Hd2 & Hid2 & Hup2).
  destruct (H23 i d2 Hd2) as (d3 & Hd3 & Hid3 & Hup3).
  exists d3. split; [exact Hd3|]. split; [|lia].
  unfold same_identity in *. intuition congruence.
Qed.

Lemma updateStatus_defined (sid : nat) (st : Status) (now : Z) (db : Table) :
  is_Some (updateStatus sid st now db) <-> (sid < length db)%nat.
Proof.
  unfold updateStatus. destruct (db !! sid) as [d|] eqn:Hsid.
  - split; intros _; [eapply lookup_lt_Some; exact Hsid|].
    eexists; reflexivity.
  - split; [intros [x Hx]; discriminate Hx|].
    intros Hlt. apply lookup_ge_None in Hsid. lia.
Qed.

Lemma apply_mutation_step (t : Z) (m : Mutation) (db : Table) :
  timestamps_ordered t db ->
  (t <= time_of m)%Z ->
  timestamps_ordered (time_of m) (apply_mutation db m)
  /\ kept_in db (apply_mutation db m).
Proof.
  intros Hord Ht.
  assert (Hweaken : timestamps_ordered (time_of m) db).
  { unfold timestamps_ordered in *. eapply Forall_impl; [exact Hord|].
    cbn. intros d [H1 H2]. split; lia. }
  destruct m as [args now | sid st now]; cbn [apply_mutation time_of] in *.
  - cbn [create snd]. split.
    + unfold timestamps_ordered. apply Forall_app. split; [exact Hweaken|].
      constructor; [|constructor]. cbn. lia.
    + intros i d Hd. exists d. split.
      * apply lookup_app_l_Some. exact Hd.
      * split; [apply same_identity_refl | lia].
  - unfold updateStatus.
    destruct (db !! sid) as [d0|] eqn:Hsid; cbn [default from_option];
      unfold id.
    + pose proof (lookup_lt_Some _ _ _ Hsid) as Hlt.
      unfold timestamps_ordered in Hord.
      pose proof (proj1 (Forall_lookup _ _) Hord sid d0 Hsid) as [Hc Hu].
      split.
      * unfold timestamps_ordered. apply Forall_insert; [exact Hweaken|].
        cbn. lia.
      * intros i d Hd. destruct (decide (i = sid)) as [->|Hne].
        -- rewrite Hsid in Hd. injection Hd as <-.
           eexists. split; [apply list_lookup_insert_eq; exact Hlt|].
           split; [repeat split|cbn; lia].
        -- exists d. split.
           ++ rewrite <- Hd. apply list_lookup_insert_ne. congruence.
           ++ split; [apply same_identity_refl | lia].
    + split; [exact Hweaken | apply kept_in_refl].
Qed.

Lemma forall2_filter {A : Type} (R : A -> A -> Prop) (f : A -> bool)
      (l l' : list A) :
  (forall x y, R x y -> f x = f y) ->
  Forall2 R l l' -> Forall2 R (List.filter f l) (List.filter f l').
Proof.
  intros Hf H. induction H as [|x y l l' Hxy Hl IH]; cbn [List.filter];
    [constructor|].
  rewrite (Hf x y Hxy). destruct (f y); [constructor|]; assumption.
Qed.

Lemma updateStatus_pointwise (sid : nat) (st : Status) (now : Z)
      (db db' : Table) :
  updateStatus sid st now db = Some db' ->
  Forall2 same_identity db db'.
Proof.
  unfold updateStatus. destruct (db !! sid) as [d0|] eqn:Hsid;
    [|discriminate].
  intros [= <-]. apply Forall2_same_length_lookup_2.
  - symmetry. apply length_insert.
  - intros i x y Hx Hy. destruct (decide (i = sid)) as [->|Hne].
    + pose proof (lookup_lt_Some _ _ _ Hsid) as Hlt.
      pose proof (eq_trans (eq_sym Hx) Hsid) as Ex.
      pose proof (eq_trans (eq_sym Hy)
                           (list_lookup_insert_eq db sid _ Hlt)) as Ey.
      injection Ex as ->. injection Ey as ->.
      repeat split.
    + assert (Hne' : sid <> i) by congruence.
      pose proof (eq_trans (eq_sym Hy)
                           (eq_trans (list_lookup_insert_ne db sid i _ Hne')
                                     Hx)) as Hxy.
      injection Hxy as ->. apply same_identity_refl.
Qed.

End ConvexStrategyFacts.

(** X26.  Along any run of [create] and [updateStatus] mutations whose
    clock readings never go back, every document keeps
    [createdAt <= updatedAt]; no document is lost or moves to another id,
    none changes its user, name, description, config or creation time,
    and no update time goes back.  A mutation that throws changes
    nothing. *)
Theorem mutations_keep_identity_and_time_order :
  forall (ms : list ConvexStrategies.Mutation) (t : Z)
         (db : ConvexStrategies.Table),
    ConvexStrategies.timestamps_ordered t db ->
    ConvexStrategies.clock_monotone t ms ->
    let db' := ConvexStrategies.apply_all ms db in
    Forall (fun d => ConvexStrategies.createdAt d
                     <= ConvexStrategies.updatedAt d) db'
    /\ ConvexStrategies.kept_in db db'.
Proof.
  intros ms. cbv zeta.
  assert (Hgen :
            forall t db,
              ConvexStrategies.timestamps_ordered t db ->
              ConvexStrategies.clock_monotone t ms ->
              (exists t', ConvexStrategies.timestamps_ordered
                            t' (ConvexStrategies.apply_all ms db))
              /\ ConvexStrategies.kept_in
                   db (ConvexStrategies.apply_all ms db)).
  { induction ms as [|m ms IH]; intros t db Hord Hclock.
    - split; [now exists t | apply kept_in_refl].
    - destruct Hclock as [Ht Hrest].
      destruct (apply_mutation_step t m db Hord Ht) as [Hord' Hkept].
      destruct (IH _ _ Hord' Hrest) as [Hex Hkept'].
      split; [exact Hex|].
      eapply kept_in_trans; [exact Hkept | exact Hkept']. }
  intros t db Hord Hclock.
  destruct (Hgen t db Hord Hclock) as [(t' & Hord') Hkept].
  split; [|exact Hkept].
  eapply Forall_impl; [exact Hord'|]. cbn. intros d [H _]. exact H.
Qed.

Lemma mutations_keep_identity_and_time_order_witness :
  Forall (fun d => ConvexStrategies.createdAt d
                   <= ConvexStrategies.updatedAt d)
         (ConvexStrategies.apply_all
            [ ConvexStrategies.Create
                {| ConvexStrategies.arg_userId := "user-1";
                   ConvexStrategies.arg_name := "weekly dca";
                   ConvexStrategies.arg_description := None;
                   ConvexStrategies.arg_config := "{}" |} 100;
              ConvexStrategies.UpdateStatus 0 ConvexStrategies.active 250;
              ConvexStrategies.UpdateStatus 7 ConvexStrategies.paused 300 ]
            []).
Proof.
  refine (proj1 (mutations_keep_identity_and_time_order _ 0 [] _ _)).
  - constructor.
  - cbn. lia.
Defined.

(** X27.  [create] stores a draft whose creation and update times are
    the same clock reading, under a fresh id, and [listByUser] then shows
    it last for its user and not at all for any other user.
    [updateStatus] succeeds exactly on the ids already handed out, for
    any of the four statuses and whatever the current status is, and
    leaves every user's list with the same strategies in the same
    order. *)
Theorem create_and_update_as_listed :
  forall (db : ConvexStrategies.Table),
    (forall args now,
        let '(id, db') := ConvexStrategies.create args now db in
        exists d,
          db' !! id = Some d
          /\ db !! id = None
          /\ ConvexStrategies.status d = ConvexStrategies.draft
          /\ ConvexStrategies.createdAt d = now
          /\ ConvexStrategies.updatedAt d = now
          /\ (forall uid,
                 ConvexStrategies.listByUser uid db'
                 = if String.eqb (ConvexStrategies.arg_userId args) uid
                   then ConvexStrategies.listByUser uid db ++ [d]
                   else ConvexStrategies.listByUser uid db))
    /\ (forall sid st now,
           (is_Some (ConvexStrategies.updateStatus sid st now db)
            <-> (sid < length db)%nat)
           /\ (forall db',
                  ConvexStrategies.updateStatus sid st now db = Some db' ->
                  (exists d, db' !! sid = Some d
                             /\ ConvexStrategies.status d = st
                             /\ ConvexStrategies.updatedAt d = now)
                  /\ forall uid,
                      Forall2 ConvexStrategies.same_identity
                              (ConvexStrategies.listByUser uid db)
                              (ConvexStrategies.listByUser uid db'))).
Proof.
  intros db. split.
  - intros args now. cbn [ConvexStrategies.create].
    eexists. split; [apply list_lookup_middle; reflexivity|].
    split; [apply lookup_ge_None; lia|].
    repeat (split; [reflexivity|]).
    intros uid. unfold ConvexStrategies.listByUser.
    rewrite List.filter_app. cbn [List.filter ConvexStrategies.userId].
    destruct (String.eqb _ uid); [reflexivity|]. now rewrite app_nil_r.
  - intros sid st now. split; [apply updateStatus_defined|].
    intros db' Hup. split.
    + unfold ConvexStrategies.updateStatus in Hup.
      destruct (db !! sid) as [d0|] eqn:Hsid; [|discriminate].
      injection Hup as <-. eexists.
      split; [apply list_lookup_insert_eq; eapply lookup_lt_Some; eauto|].
      split; reflexivity.
    + intros uid. unfold ConvexStrategies.listByUser.
      apply forall2_filter; [|eapply updateStatus_pointwise; eauto].
      intros x y (Hu & _). now rewrite Hu.
Qed.

(** X28.  A raise that is not derived from [Exception], such as the
    [CancelledError] of a cancelled await, passes the breaker by: [call]
    lets it through, and neither a failure nor a success is recorded.
    The breaker is left as the gate left it: as it was when it was closed
    or half-open, and half-open with its counters and its last failure
    time untouched when it was open and the reset was due.  So a probe
    that is cancelled leaves the breaker half-open, and a cancelled call
    on a closed breaker is not counted as a failure. *)
Theorem uncaught_raise_passes_the_breaker_by :
  forall (P : Breaker.ResetPolicy) (W R : Type) (func : Breaker.Func W R)
         (now : Z) (self : Breaker.CircuitBreaker) (w w1 : W) (msg : string),
    func w = (w1, inr (Breaker.BaseException msg)) ->
    let '(self', w', outcome) := Breaker.call func now self w in
    (Breaker.state self <> Breaker.OPEN ->
     self' = self /\ w' = w1
     /\ outcome = Breaker.Raised (Breaker.FuncBaseException msg))
    /\ (Breaker.state self = Breaker.OPEN ->
        Breaker.should_attempt_reset self now = true ->
        self' = Breaker.set_state Breaker.HALF_OPEN self /\ w' = w1
        /\ outcome = Breaker.Raised (Breaker.FuncBaseException msg))
    /\ (Breaker.state self = Breaker.OPEN ->
        Breaker.should_attempt_reset self now = false ->
        self' = self /\ w' = w
        /\ exists m, outcome = Breaker.Raised (Breaker.CircuitOpenError m))
    /\ Breaker.failure_count self' = Breaker.failure_count self
    /\ Breaker.success_count self' = Breaker.success_count self
    /\ Breaker.last_failure_time self' = Breaker.last_failure_time self.
Proof.
  intros P W R func now self w w1 msg Hfunc. unfold Breaker.call.
  destruct (decide (Breaker.state self = Breaker.OPEN)) as [Hopen|Hnopen].
  - destruct (Breaker.should_attempt_reset self now) eqn:Hreset.
    + rewrite Hfunc.
      split; [intros Hn; contradiction|].
      split; [intros _ _; repeat split|].
      split; [intros _ Hno; discriminate Hno|].
      repeat split.
    + split; [intros Hn; contradiction|].
      split; [intros _ Hyes; discriminate Hyes|].
      split; [intros _ _; repeat split; eexists; reflexivity|].
      repeat split.
  - rewrite Hfunc.
    split; [intros _; repeat split|].
    split; [intros Ho; contradiction|].
    split; [intros Ho; contradiction|].
    repeat split.
Qed.

Lemma uncaught_raise_passes_the_breaker_by_witness :
  Breaker.state BreakerRuns.sample_open = Breaker.OPEN
  /\ fst (fst (Breaker.call BreakerRuns.rpc_cancelled 60
                            BreakerRuns.sample_open 0%nat))
     = Breaker.set_state Breaker.HALF_OPEN BreakerRuns.sample_open.
Proof.
  split; [reflexivity|].
  pose proof (uncaught_raise_passes_the_breaker_by
                Breaker.timeout_policy nat string BreakerRuns.rpc_cancelled
                60 BreakerRuns.sample_open 0%nat 1%nat "CancelledError"
                eq_refl) as H.
  destruct (Breaker.call BreakerRuns.rpc_cancelled 60
                         BreakerRuns.sample_open 0%nat)
    as [[self' w'] outcome].
  destruct H as (_ & Hprobe & _).
  apply Hprobe; reflexivity.
Defined.
